(** * LegalBot front end: the Vue components as state machines

    The repository holds the presentation layer of LegalBot: [App.vue],
    [Sidebar.vue], [Chat.vue] and [DocumentProcessor.vue].  Each component
    is embedded as a record for the object returned by [data()] and one
    function per method.  An [async] method is split at its [await]: the part
    that runs synchronously up to the request, and the part that runs once the
    promise has settled.  Between the two the event loop may run any other
    handler, so the second part takes the state as it is at that moment.

    A string is the sequence of the UTF-8 bytes of its text, as the literals
    of this file are.  Times ([new Date()]) are passed in by the caller;
    numbers that are only copied are rationals.  A JSON field that may be
    absent is an [option]. *)

From Stdlib Require Import Ascii String QArith.
From stdpp Require Import base option list strings relations pretty.

Open Scope string_scope.
Open Scope list_scope.

(** ** JavaScript string primitives used by the components *)
Module Js.

(** [String.prototype.toLowerCase], on the letters [A]..[Z], which move to
    [a]..[z]; every other byte stays.  The components compare what it
    returns with texts made of [.], [p], [d] and [f] only, and no character
    outside [A]..[Z] has one of these in its lower case. *)
Definition lower_char (c : ascii) : ascii :=
  let n := nat_of_ascii c in
  if (65 <=? n)%nat && (n <=? 90)%nat then ascii_of_nat (n + 32) else c.

Fixpoint toLowerCase (s : string) : string :=
  match s with
  | EmptyString => EmptyString
  | String c r => String (lower_char c) (toLowerCase r)
  end.

(** [s.split(sep)] for a one-character separator; the result is never
    empty. *)
Fixpoint split (sep : ascii) (s : string) : list string :=
  match s with
  | EmptyString => [EmptyString]
  | String c r =>
      if Ascii.eqb c sep then EmptyString :: split sep r
      else match split sep r with
           | h :: t => String c h :: t
           | [] => [String c EmptyString]
           end
  end.

(** [arr.pop()] read as a value: the last element ([undefined] on the empty
    array, which [split] never returns). *)
Definition pop (l : list string) : string := default "" (last l).

(** [s.endsWith(suffix)]. *)
Fixpoint endsWith (suffix s : string) : bool :=
  String.eqb s suffix ||
  match s with
  | EmptyString => false
  | String _ r => endsWith suffix r
  end.

Definition byte_in (lo hi : nat) (a : ascii) : bool :=
  let n := nat_of_ascii a in (lo <=? n)%nat && (n <=? hi)%nat.

Definition byte_is (k : nat) (a : ascii) : bool := (nat_of_ascii a =? k)%nat.

(** The white space of [trim] (WhiteSpace and LineTerminator), by the length
    of its UTF-8 encoding.  One byte: TAB, LF, VT, FF, CR and SPACE. *)
Definition is_space (a : ascii) : bool := byte_in 9 13 a || byte_is 32 a.

(** Two bytes: U+00A0, encoded [C2 A0]. *)
Definition is_space2 (a b : ascii) : bool := byte_is 194 a && byte_is 160 b.

(** Three bytes: U+1680 [E1 9A 80]; U+2000..U+200A [E2 80 80..8A]; U+2028,
    U+2029 and U+202F [E2 80 A8], [E2 80 A9], [E2 80 AF]; U+205F
    [E2 81 9F]; U+3000 [E3 80 80]; U+FEFF [EF BB BF]. *)
Definition is_space3 (a b c : ascii) : bool :=
  (byte_is 225 a && byte_is 154 b && byte_is 128 c) ||
  (byte_is 226 a && byte_is 128 b &&
     (byte_in 128 138 c || byte_is 168 c || byte_is 169 c || byte_is 175 c)) ||
  (byte_is 226 a && byte_is 129 b && byte_is 159 c) ||
  (byte_is 227 a && byte_is 128 b && byte_is 128 c) ||
  (byte_is 239 a && byte_is 187 b && byte_is 191 c).

(** What follows the white-space character that [s] starts with, if it
    starts with one. *)
Definition space_prefix (s : string) : option string :=
  match s with
  | String a r =>
      if is_space a then Some r
      else match r with
           | String b r2 =>
               if is_space2 a b then Some r2
               else match r2 with
                    | String c r3 => if is_space3 a b c then Some r3 else None
                    | EmptyString => None
                    end
           | EmptyString => None
           end
  | EmptyString => None
  end.

(** [trimStart]: the text after its leading white-space characters. *)
Fixpoint trimStart (s : string) : string :=
  match s with
  | EmptyString => EmptyString
  | String a r =>
      if is_space a then trimStart r
      else match r with
           | String b r2 =>
               if is_space2 a b then trimStart r2
               else match r2 with
                    | String c r3 => if is_space3 a b c then trimStart r3 else s
                    | EmptyString => s
                    end
           | EmptyString => s
           end
  end.

(** The text is empty or made of white-space characters only. *)
Fixpoint all_space (s : string) : bool :=
  match s with
  | EmptyString => true
  | String a r =>
      if is_space a then all_space r
      else match r with
           | String b r2 =>
               if is_space2 a b then all_space r2
               else match r2 with
                    | String c r3 => is_space3 a b c && all_space r3
                    | EmptyString => false
                    end
           | EmptyString => false
           end
  end.

(** [trimEnd]: the text up to the point from which only white space
    follows. *)
Fixpoint trimEnd (s : string) : string :=
  match s with
  | EmptyString => EmptyString
  | String a r => if all_space s then EmptyString else String a (trimEnd r)
  end.

(** [String.prototype.trim]. *)
Definition trim (s : string) : string := trimEnd (trimStart s).

(** Truthiness of a string: only the empty string is falsy. *)
Definition truthy (s : string) : bool :=
  match s with EmptyString => false | _ => true end.

(** Truthiness of a value that is a string, [null] or [undefined]. *)
Definition truthy_opt (o : option string) : bool :=
  match o with Some s => truthy s | None => false end.

(** [o || d] where [o] is a string, [null] or [undefined]. *)
Definition or_else (o : option string) (d : string) : string :=
  match o with
  | Some s => if truthy s then s else d
  | None => d
  end.

End Js.

(** ** Handlers as state transformers that emit effects

  A handler mutates the component's data and may start an HTTP request or
  arm a timer.  It is a function from the data to the new data and the
  effects it emitted, in order. *)
Section handlers.
Context {D E : Type}.

Definition Handler := D -> D * list E.

Definition skip : Handler := fun st => (st, []).

(** An assignment to fields of [this]. *)
Definition assign (f : D -> D) : Handler := fun st => (f st, []).

Definition emit (e : E) : Handler := fun st => (st, [e]).

Definition seq (h k : Handler) : Handler := fun st =>
  let '(st1, e1) := h st in
  let '(st2, e2) := k st1 in
  (st2, e1 ++ e2).

(** [if (c) { h }] without an else branch. *)
Definition when (c : bool) (h : Handler) : Handler := if c then h else skip.

(** [xs.forEach(x => body x)]; the body sees the data as the earlier
    iterations left it. *)
Fixpoint forEach {A} (xs : list A) (body : A -> Handler) : Handler :=
  match xs with
  | [] => skip
  | x :: r => seq (body x) (forEach r body)
  end.

End handlers.

Arguments Handler : clear implicits.
Infix ">>>" := seq (at level 61, left associativity).

(** ** DocumentProcessor.vue *)
Module DocumentProcessor.
Import Js.

(** A browser [File], with the attributes the component reads. *)
Record File := { name : string; type : string; size : N }.

Inductive StatusType := success | error | info.

(** The object [{ type, message }] kept in [uploadStatus]. *)
Record Status := { status_type : StatusType; message : string }.

(** The value of [processedAt]: the server's [uploaded_at] text, or a
    [Date] made by the client at the given instant. *)
Inductive Stamp := ServerTime (s : string) | ClientTime (t : N).

(** An entry of [processedDocuments]. *)
Record Doc := { doc_name : string; fileId : option string; processedAt : Stamp }.

(** One per-file outcome object of the upload endpoints. *)
Record UploadResult := {
  r_success : bool;
  r_filename : string;
  r_file_id : option string;
  r_uploaded_at : option string
}.

(** [response.data]: a JSON object or a JSON array of objects. *)
Inductive ResponseData := Obj (r : UploadResult) | Arr (rs : list UploadResult).

(** [error.response], with [status] and [data?.detail]. *)
Record ErrorResponse := { status : nat; detail : option string }.

Inductive Outcome :=
| Resolved (data : ResponseData)
| Rejected (response : option ErrorResponse).

(** The call [axios.post(endpoint, formData, { headers })]. *)
Record Request := {
  endpoint : string;
  formData : list (string * File);
  contentType : string
}.

Inductive Effect :=
| Post (r : Request)
| SetTimeout (ms : N).

(** The object returned by [data()]. *)
Record Data := {
  uploadedFiles : list File;
  isDragging : bool;
  uploading : bool;
  uploadStatus : option Status;
  processedDocuments : list Doc;
  apiUrl : string
}.

Definition set_uploadedFiles v (st : Data) : Data :=
  {| uploadedFiles := v; isDragging := isDragging st; uploading := uploading st;
     uploadStatus := uploadStatus st; processedDocuments := processedDocuments st;
     apiUrl := apiUrl st |}.
Definition set_isDragging v (st : Data) : Data :=
  {| uploadedFiles := uploadedFiles st; isDragging := v; uploading := uploading st;
     uploadStatus := uploadStatus st; processedDocuments := processedDocuments st;
     apiUrl := apiUrl st |}.
Definition set_uploading v (st : Data) : Data :=
  {| uploadedFiles := uploadedFiles st; isDragging := isDragging st; uploading := v;
     uploadStatus := uploadStatus st; processedDocuments := processedDocuments st;
     apiUrl := apiUrl st |}.
Definition set_uploadStatus v (st : Data) : Data :=
  {| uploadedFiles := uploadedFiles st; isDragging := isDragging st;
     uploading := uploading st; uploadStatus := v;
     processedDocuments := processedDocuments st; apiUrl := apiUrl st |}.
Definition set_processedDocuments v (st : Data) : Data :=
  {| uploadedFiles := uploadedFiles st; isDragging := isDragging st;
     uploading := uploading st; uploadStatus := uploadStatus st;
     processedDocuments := v; apiUrl := apiUrl st |}.

(** [data()]; [env] is [import.meta.env.VITE_API_URL]. *)
Definition data (env : option string) : Data :=
  {| uploadedFiles := []; isDragging := false; uploading := false;
     uploadStatus := None; processedDocuments := [];
     apiUrl := or_else env "/api" |}.

Local Abbreviation H := (Handler Data Effect).

Definition showStatus (ty : StatusType) (msg : string) : H :=
  assign (set_uploadStatus (Some {| status_type := ty; message := msg |})) >>>
  when (match ty with success => true | _ => false end) (emit (SetTimeout 5000)).

(** The callback armed by [showStatus]. *)
Definition statusTimeout : H := assign (set_uploadStatus None).

Definition allowedType := "application/pdf".
Definition allowedExtension := ".pdf".

(** The predicate of [files.filter] in [addFiles]. *)
Definition isValidFile (file : File) : bool :=
  let extension := "." +:+ toLowerCase (pop (split "." (name file))) in
  String.eqb (type file) allowedType || String.eqb extension allowedExtension.

(** The predicate of [uploadedFiles.some] in [addFiles]. *)
Definition sameFile (file f : File) : bool :=
  String.eqb (name f) (name file) && N.eqb (size f) (size file).

Definition push (file : File) (st : Data) : Data :=
  set_uploadedFiles (uploadedFiles st ++ [file]) st.

Definition addOne (file : File) : H := fun st =>
  let exists_ := existsb (sameFile file) (uploadedFiles st) in
  when (negb exists_) (assign (push file)) st.

Definition addFiles (files : list File) : H :=
  let validFiles := List.filter isValidFile files in
  if (length validFiles =? 0)%nat && (0 <? length files)%nat then
    showStatus error "Por favor, selecciona solo archivos PDF"
  else
    when (length validFiles <? length files)%nat
      (let rejectedCount := (length files - length validFiles)%nat in
       showStatus info
         (pretty rejectedCount +:+
          " archivo(s) rechazado(s). Solo se aceptan archivos PDF")) >>>
    forEach validFiles addOne >>>
    when (0 <? length validFiles)%nat
      (showStatus info (pretty (length validFiles) +:+ " archivo(s) agregado(s)")).

Definition handleFileSelect (files : list File) : H := addFiles files.

(** The predicate of the filter in [handleDrop]. *)
Definition isDroppedPdf (file : File) : bool :=
  String.eqb (type file) "application/pdf" ||
  endsWith ".pdf" (toLowerCase (name file)).

Definition handleDrop (files : list File) : H :=
  assign (set_isDragging false) >>>
  addFiles (List.filter isDroppedPdf files).

(** [uploadedFiles.splice(index, 1)] for an index from the [v-for]. *)
Definition removeFile (index : nat) : H :=
  assign (fun st => set_uploadedFiles (delete index (uploadedFiles st)) st) >>>
  (fun st => when (length (uploadedFiles st) =? 0)%nat
               (assign (set_uploadStatus None)) st).

Definition clearFiles : H :=
  assign (set_uploadedFiles []) >>> assign (set_uploadStatus None).

(** [uploadFiles] up to its [await]. *)
Definition uploadFiles_start : H := fun st =>
  if (length (uploadedFiles st) =? 0)%nat || uploading st then skip st
  else
    (assign (set_uploading true) >>>
     assign (set_uploadStatus None) >>>
     (fun st =>
        let formData := (fun file => ("files", file)) <$> uploadedFiles st in
        let endpoint :=
          if (length (uploadedFiles st) =? 1)%nat
          then apiUrl st +:+ "/upload"
          else apiUrl st +:+ "/upload/multiple" in
        emit (Post {| endpoint := endpoint; formData := formData;
                      contentType := "multipart/form-data" |}) st)) st.

(** The entry pushed on [uploadedDocs] for a successful outcome object;
    [now] is the instant of [new Date()]. *)
Definition docOf (now : N) (r : UploadResult) : Doc :=
  {| doc_name := r_filename r;
     fileId := r_file_id r;
     processedAt := if truthy_opt (r_uploaded_at r)
                    then ServerTime (default "" (r_uploaded_at r))
                    else ClientTime now |}.

(** State of the three local variables [uploadedDocs], [successCount] and
    [failedCount]. *)
Record Tally := { uploadedDocs : list Doc; successCount : nat; failedCount : nat }.

Definition tallyOne (now : N) (acc : Tally) (result : UploadResult) : Tally :=
  if r_success result then
    {| uploadedDocs := uploadedDocs acc ++ [docOf now result];
       successCount := S (successCount acc);
       failedCount := failedCount acc |}
  else
    {| uploadedDocs := uploadedDocs acc;
       successCount := successCount acc;
       failedCount := S (failedCount acc) |}.

Definition tally0 : Tally :=
  {| uploadedDocs := []; successCount := 0; failedCount := 0 |}.

(** The branch for [uploadedFiles.length === 1]: [data.success] is read off
    [response.data] itself, and is [undefined] on an array. *)
Definition tallySingle (now : N) (data : ResponseData) : Tally :=
  match data with
  | Obj r => tallyOne now tally0 r
  | Arr _ => {| uploadedDocs := []; successCount := 0; failedCount := 1 |}
  end.

(** The other branch: [Array.isArray(response.data) ? response.data :
    [response.data]], then [results.forEach]. *)
Definition tallyMultiple (now : N) (data : ResponseData) : Tally :=
  let results := match data with Arr rs => rs | Obj r => [r] end in
  fold_left (tallyOne now) results tally0.

(** The [try] block after the [await]. *)
Definition onResolved (now : N) (data : ResponseData) : H := fun st =>
  let t := if (length (uploadedFiles st) =? 1)%nat
           then tallySingle now data
           else tallyMultiple now data in
  (when (0 <? length (uploadedDocs t))%nat
     (assign (fun st =>
        set_processedDocuments (processedDocuments st ++ uploadedDocs t) st)) >>>
   (if (0 <? successCount t)%nat && (failedCount t =? 0)%nat then
      showStatus success
        ("¡" +:+ pretty (successCount t) +:+ " documento(s) subido(s) exitosamente!")
    else if (0 <? successCount t)%nat && (0 <? failedCount t)%nat then
      showStatus info
        (pretty (successCount t) +:+ " documento(s) subido(s), " +:+
         pretty (failedCount t) +:+ " fallido(s)")
    else
      showStatus error
        "No se pudo subir ningún documento. Verifica los archivos e intenta de nuevo.") >>>
   when (failedCount t =? 0)%nat clearFiles) st.

(** The [catch] block. *)
Definition onRejected (response : option ErrorResponse) : H :=
  let st_ := status <$> response in
  let detail_ := response ≫= detail in
  if bool_decide (st_ = Some 400) then
    showStatus error
      (or_else detail_
         "Error de validación. Verifica que los archivos sean del tipo correcto y no excedan 50MB.")
  else if bool_decide (st_ = Some 404) then
    showStatus error
      "El endpoint de carga de documentos aún no está disponible. Asegúrate de que el backend esté ejecutándose."
  else if bool_decide (st_ = Some 413) then
    showStatus error
      "Archivo demasiado grande. El tamaño máximo permitido es 50MB por archivo."
  else
    showStatus error
      (or_else detail_
         "Error al procesar los documentos. Por favor, intenta de nuevo.").

(** [uploadFiles] from the point where the promise of [axios.post] has
    settled, [finally] included. *)
Definition uploadFiles_settle (now : N) (o : Outcome) : H :=
  match o with
  | Resolved data => onResolved now data
  | Rejected response => onRejected response
  end >>> assign (set_uploading false).

(** *** The component in the event loop

    [requests] are the HTTP calls that have been issued and have not settled,
    [timers] counts the armed timeouts. *)
Record System := { comp : Data; requests : list Request; timers : nat }.

Definition posts (es : list Effect) : list Request :=
  omap (fun e => match e with Post r => Some r | SetTimeout _ => None end) es.

Definition timeouts (es : list Effect) : nat :=
  length (List.filter (fun e => match e with SetTimeout _ => true | Post _ => false end) es).

(** Running a handler to completion. *)
Definition run (h : H) (s : System) : System :=
  let '(st, es) := h (comp s) in
  {| comp := st; requests := requests s ++ posts es; timers := timers s + timeouts es |}.

Definition mounted (env : option string) : System :=
  {| comp := data env; requests := []; timers := 0 |}.

(** What the user, the network and the clock can do to the component. *)
Inductive step : System -> System -> Prop :=
| step_select files s : step s (run (handleFileSelect files) s)
| step_drop files s : step s (run (handleDrop files) s)
| step_dragover s : step s (run (assign (set_isDragging true)) s)
| step_dragleave s : step s (run (assign (set_isDragging false)) s)
| step_remove index s : step s (run (removeFile index) s)
| step_clear s : step s (run clearFiles s)
| step_upload s : step s (run uploadFiles_start s)
| step_settle now o st rs1 r rs2 n :
    step {| comp := st; requests := rs1 ++ r :: rs2; timers := n |}
         (run (uploadFiles_settle now o)
              {| comp := st; requests := rs1 ++ rs2; timers := n |})
| step_timeout st rs n :
    step {| comp := st; requests := rs; timers := S n |}
         (run statusTimeout {| comp := st; requests := rs; timers := n |}).

Definition reachable (s : System) : Prop := exists env, rtc step (mounted env) s.

(** *** Sequences of list operations *)
Inductive ListOp :=
| AddFiles (files : list File)
| RemoveFile (index : nat)
| ClearFiles.

Definition listOp (op : ListOp) : H :=
  match op with
  | AddFiles files => addFiles files
  | RemoveFile index => removeFile index
  | ClearFiles => clearFiles
  end.

Definition runOps (ops : list ListOp) (st : Data) : Data :=
  fold_left (fun st op => (listOp op st).1) ops st.

(** The pair that [addFiles] compares. *)
Definition key (f : File) : string * N := (name f, size f).

End DocumentProcessor.

(** ** Chat.vue *)
Module Chat.
Import Js.

(** One entry of [response.data.sources]. *)
Record Source := {
  chunk_id : string;
  src_file_id : string;
  filename : string;
  text_preview : string;
  relevance_score : Q;
  chunk_index : N
}.

(** [response.data] of [POST /chat], with the fields the component reads;
    [None] is an absent field. *)
Record ChatResponse := {
  answer : option string;
  sources : option (list Source);
  model_used : option string
}.

Inductive MessageType := user | assistant | error.

(** An entry of [messages]; [msg_sources] and [modelUsed] are [None] on the
    messages built without these fields. *)
Record Message := {
  msg_type : MessageType;
  content : string;
  msg_sources : option (list Source);
  modelUsed : option string;
  timestamp : N
}.

(** The JSON body of the request. *)
Module Body.
Record t := {
  question : string;
  model : string;
  max_chunks : N;
  temperature : Q;
  file_id : option string
}.
End Body.

(** The call [axios.post(url, requestBody, { headers })]. *)
Record Request := { url : string; requestBody : Body.t; contentType : string }.

Inductive Effect := Post (r : Request).

(** [error.response], with [status] and [data?.detail]. *)
Record ErrorResponse := { status : nat; detail : option string }.

(** The rejection value: [error.response] and [error.code]. *)
Record AxiosError := { response : option ErrorResponse; code : option string }.

Inductive Outcome :=
| Resolved (data : ChatResponse)
| Rejected (err : AxiosError).

(** The object returned by [data()]. *)
Record Data := {
  messages : list Message;
  currentMessage : string;
  loading : bool;
  apiUrl : string;
  selectedFileId : option string;
  model : string;
  maxChunks : N;
  temperature : Q
}.

Definition set_messages v (st : Data) : Data :=
  {| messages := v; currentMessage := currentMessage st; loading := loading st;
     apiUrl := apiUrl st; selectedFileId := selectedFileId st; model := model st;
     maxChunks := maxChunks st; temperature := temperature st |}.
Definition set_currentMessage v (st : Data) : Data :=
  {| messages := messages st; currentMessage := v; loading := loading st;
     apiUrl := apiUrl st; selectedFileId := selectedFileId st; model := model st;
     maxChunks := maxChunks st; temperature := temperature st |}.
Definition set_loading v (st : Data) : Data :=
  {| messages := messages st; currentMessage := currentMessage st; loading := v;
     apiUrl := apiUrl st; selectedFileId := selectedFileId st; model := model st;
     maxChunks := maxChunks st; temperature := temperature st |}.

(** [data()]; [env] is [import.meta.env.VITE_API_URL]. *)
Definition data (env : option string) : Data :=
  {| messages := []; currentMessage := ""; loading := false;
     apiUrl := or_else env "/api"; selectedFileId := None;
     model := "mistral:7b-instruct"; maxChunks := 5; temperature := 7 # 10 |}.

Local Abbreviation H := (Handler Data Effect).

Definition pushMessage (m : Message) : H :=
  assign (fun st => set_messages (messages st ++ [m]) st).

(** The [mounted()] hook; [now] is the instant of [new Date()]. *)
Definition mounted (now : N) : H :=
  pushMessage
    {| msg_type := assistant;
       content := "¡Hola! Soy LegalBot. Puedo ayudarte a entender documentos legales en lenguaje sencillo. ¿En qué puedo ayudarte?";
       msg_sources := None; modelUsed := None; timestamp := now |}.

(** The object literal [requestBody] and the conditional [file_id]. *)
Definition makeRequestBody (userMessage : string) (st : Data) : Body.t :=
  {| Body.question := userMessage;
     Body.model := model st;
     Body.max_chunks := maxChunks st;
     Body.temperature := temperature st;
     Body.file_id := if truthy_opt (selectedFileId st)
                     then selectedFileId st else None |}.

(** The object literal [userMsg]. *)
Definition userMsg (now : N) (userMessage : string) : Message :=
  {| msg_type := user; content := userMessage;
     msg_sources := None; modelUsed := None; timestamp := now |}.

(** [sendMessage] up to its [await]. *)
Definition sendMessage_start (now : N) : H := fun st =>
  if negb (truthy (trim (currentMessage st))) || loading st then skip st
  else
    let userMessage := trim (currentMessage st) in
    (assign (set_currentMessage "") >>>
     pushMessage (userMsg now userMessage) >>>
     assign (set_loading true) >>>
     (fun st =>
        emit (Post {| url := apiUrl st +:+ "/chat";
                      requestBody := makeRequestBody userMessage st;
                      contentType := "application/json" |}) st)) st.

(** The object literal [assistantMessage]. *)
Definition assistantMessage (now : N) (data : ChatResponse) : Message :=
  {| msg_type := assistant;
     content := or_else (answer data) "Respuesta recibida";
     msg_sources := Some (default [] (sources data));
     modelUsed := model_used data;
     timestamp := now |}.

(** The [try] block after the [await]. *)
Definition onResolved (now : N) (data : ChatResponse) : H :=
  pushMessage (assistantMessage now data).

Definition defaultError := "Error al procesar tu mensaje. Por favor, intenta de nuevo.".
Definition notFoundError :=
  "No se encontraron documentos relevantes. Asegúrate de haber subido y procesado documentos.".
Definition badRequestError :=
  "Error en la solicitud. Verifica que el documento esté procesado.".
Definition unavailableError :=
  "El modelo no está disponible. Verifica que esté instalado en Ollama.".
Definition networkError :=
  "Error de conexión. Verifica que el backend esté ejecutándose.".

(** The value of [errorMessage] at the end of the [catch] block. *)
Definition errorMessage (err : AxiosError) : string :=
  match response err with
  | Some r =>
      let status := status r in
      let detail := detail r in
      if (status =? 404)%nat then or_else detail notFoundError
      else if (status =? 400)%nat then or_else detail badRequestError
      else if (status =? 503)%nat then or_else detail unavailableError
      else or_else detail defaultError
  | None =>
      if bool_decide (code err = Some "ERR_NETWORK") then networkError
      else defaultError
  end.

(** The [catch] block. *)
Definition onRejected (now : N) (err : AxiosError) : H :=
  pushMessage {| msg_type := error; content := errorMessage err;
                 msg_sources := None; modelUsed := None; timestamp := now |}.

(** [sendMessage] from the point where the promise of [axios.post] has
    settled, [finally] included. *)
Definition sendMessage_settle (now : N) (o : Outcome) : H :=
  match o with
  | Resolved data => onResolved now data
  | Rejected err => onRejected now err
  end >>> assign (set_loading false).

(** The [message-sources] block of the template: one line per source, in the
    order of [v-for], with the file name and the relevance as a percentage.
    [toFixed] stands for [Number.prototype.toFixed]. *)
Definition renderSources (toFixed : Q -> nat -> string) (m : Message)
  : list (string * string) :=
  match msg_sources m with
  | Some l =>
      if (0 <? length l)%nat then
        (fun source =>
           (filename source,
            "Relevancia: " +:+ toFixed (relevance_score source * 100)%Q 1%nat +:+ "%"))
        <$> l
      else []
  | None => []
  end.

(** *** The component in the event loop *)
Record System := { comp : Data; requests : list Request }.

Definition posts (es : list Effect) : list Request :=
  (fun e => match e with Post r => r end) <$> es.

Definition run (h : H) (s : System) : System :=
  let '(st, es) := h (comp s) in
  {| comp := st; requests := requests s ++ posts es |}.

Definition created (env : option string) (now : N) : System :=
  run (mounted now) {| comp := data env; requests := [] |}.

(** What the user and the network can do to the component: edit the text
    area ([v-model]), call [sendMessage], and settle a request in flight. *)
Inductive step : System -> System -> Prop :=
| step_input text s : step s (run (assign (set_currentMessage text)) s)
| step_send now s : step s (run (sendMessage_start now) s)
| step_settle now o st rs1 r rs2 :
    step {| comp := st; requests := rs1 ++ r :: rs2 |}
         (run (sendMessage_settle now o) {| comp := st; requests := rs1 ++ rs2 |}).

Definition reachable (s : System) : Prop :=
  exists env now, rtc step (created env now) s.

End Chat.

(** ** Sidebar.vue and App.vue *)
Module App.

(** The two buttons of the side bar. *)
Inductive NavItem := navChat | navDocuments.

(** The payload of [$emit('change-view', ...)] of each button. *)
Definition emitted (item : NavItem) : string :=
  match item with
  | navChat => "chat"
  | navDocuments => "documents"
  end.

(** The object returned by [data()]. *)
Record Data := { currentView : string }.

Definition data : Data := {| currentView := "chat" |}.

Definition changeView (view : string) (st : Data) : Data :=
  {| currentView := view |}.

Inductive View := ChatView | DocumentProcessorView.

(** The children of [main] that pass their [v-if]. *)
Definition rendered (st : Data) : list View :=
  (if String.eqb (currentView st) "chat" then [ChatView] else []) ++
  (if String.eqb (currentView st) "documents" then [DocumentProcessorView] else []).

(** A click on a button of the side bar reaches [changeView] with the
    button's payload. *)
Inductive step : Data -> Data -> Prop :=
| step_click item st : step st (changeView (emitted item) st).

Definition reachable (st : Data) : Prop := rtc step data st.

End App.

(** ** Template bindings and display methods

    The expressions the templates bind to [:disabled], [:class] and [v-html],
    as functions of the data they read. *)
Module DocumentProcessorUI.
Import Js DocumentProcessor.

(** [:disabled] of the upload button. *)
Definition uploadDisabled (st : Data) : bool :=
  uploading st || (length (uploadedFiles st) =? 0)%nat.

(** [:disabled] of the clear button. *)
Definition clearDisabled (st : Data) : bool := uploading st.

(** [v-if] of the list of selected files. *)
Definition filesListShown (st : Data) : bool := (0 <? length (uploadedFiles st))%nat.

End DocumentProcessorUI.

Module ChatUI.
Import Js Chat.

(** [:disabled] of the send button. *)
Definition sendDisabled (st : Data) : bool :=
  loading st || negb (truthy (trim (currentMessage st))).

(** The handler of [keydown.shift.enter]: [currentMessage += '\n']. *)
Definition shiftEnter : Handler Data Effect :=
  assign (fun st => set_currentMessage (currentMessage st +:+ String "010" "") st).



End ChatUI.

Module SidebarUI.
Import App.

(** The [active] class of each button, from the [activeView] prop. *)
Definition active (activeView : string) (item : NavItem) : bool :=
  match item with
  | navChat => String.eqb activeView "chat"
  | navDocuments => String.eqb activeView "documents"
  end.

(** The view each button stands for. *)
Definition viewOf (item : NavItem) : View :=
  match item with
  | navChat => ChatView
  | navDocuments => DocumentProcessorView
  end.

End SidebarUI.

(** ** Facts about the string primitives *)
Section js_facts.
Import Js.

Lemma split_nonempty sep s : split sep s <> [].
Proof.
  destruct s as [|c r]; simpl; [discriminate|].
  destruct (Ascii.eqb c sep); [discriminate|].
  destruct (split sep r); discriminate.
Qed.

Lemma endsWith_spec suffix s :
  endsWith suffix s = true <-> exists p, s = p +:+ suffix.
Proof.
  induction s as [|c r IH]; cbn [endsWith].
  - rewrite orb_false_r, String.eqb_eq. split.
    + intros <-. by exists "".
    + intros [p Hp]. destruct p; simpl in Hp; [done|discriminate].
  - rewrite orb_true_iff, String.eqb_eq, IH. split.
    + intros [<-|[p ->]]; [by exists ""|by exists (String c p)].
    + intros [[|c' p] Hp]; simpl in Hp.
      * by left.
      * right. exists p. by injection Hp.
Qed.

Lemma trimStart_unfold s :
  trimStart s = match space_prefix s with Some r => trimStart r | None => s end.
Proof.
  destruct s as [|a [|b [|c r]]]; cbn [trimStart space_prefix]; try done.
  - by destruct (is_space a).
  - by destruct (is_space a), (is_space2 a b).
  - by destruct (is_space a), (is_space2 a b), (is_space3 a b c).
Qed.

Lemma all_space_unfold s :
  all_space s =
  match s with
  | EmptyString => true
  | _ => match space_prefix s with Some r => all_space r | None => false end
  end.
Proof.
  destruct s as [|a [|b [|c r]]]; cbn [all_space space_prefix]; try done.
  - by destruct (is_space a).
  - by destruct (is_space a), (is_space2 a b).
  - by destruct (is_space a), (is_space2 a b), (is_space3 a b c).
Qed.

Lemma space_prefix_length s r :
  space_prefix s = Some r -> String.length r < String.length s.
Proof.
  destruct s as [|a [|b [|c t]]]; cbn [space_prefix]; try done;
    repeat case_match; intros; simplify_eq; cbn; lia.
Qed.

Lemma string_length_ind (P : string -> Prop) :
  (forall s, (forall r, String.length r < String.length s -> P r) -> P s) ->
  forall s, P s.
Proof.
  intros Hstep s. remember (String.length s) as n eqn:Hn.
  revert s Hn. induction n as [n IH] using lt_wf_ind. intros s ->.
  apply Hstep. intros r Hr. by eapply IH.
Qed.

Lemma all_space_trimStart s : all_space s = true <-> trimStart s = "".
Proof.
  induction s as [s IH] using string_length_ind.
  rewrite all_space_unfold, trimStart_unfold.
  destruct s as [|a t]; [done|].
  destruct (space_prefix (String a t)) as [r|] eqn:Hp; [|done].
  apply IH. by apply space_prefix_length.
Qed.

Lemma all_space_trimStart_same s : all_space (trimStart s) = all_space s.
Proof.
  induction s as [s IH] using string_length_ind.
  rewrite (all_space_unfold s), trimStart_unfold.
  destruct s as [|a t]; [done|].
  destruct (space_prefix (String a t)) as [r|] eqn:Hp.
  - apply IH. by apply space_prefix_length.
  - by rewrite all_space_unfold, Hp.
Qed.

Lemma trimEnd_empty t : trimEnd t = "" <-> all_space t = true.
Proof.
  destruct t as [|a r]; [done|]. cbn [trimEnd].
  by destruct (all_space (String a r)).
Qed.

Lemma trim_all_space s : trim s = "" <-> all_space s = true.
Proof. unfold trim. by rewrite trimEnd_empty, all_space_trimStart_same. Qed.

Lemma trimStart_no_prefix s : space_prefix (trimStart s) = None.
Proof.
  induction s as [s IH] using string_length_ind.
  rewrite trimStart_unfold.
  destruct (space_prefix s) as [r|] eqn:Hp; [|done].
  apply IH. by apply space_prefix_length.
Qed.

Lemma trimEnd_cut t : exists suffix, t = trimEnd t +:+ suffix /\ all_space suffix = true.
Proof.
  induction t as [|a r (suffix & Hr & Hs)]; [by exists ""|].
  cbn [trimEnd]. destruct (all_space (String a r)) eqn:Hall.
  - by exists (String a r).
  - exists suffix. split; [|done].
    change (String a (trimEnd r) +:+ suffix) with (String a (trimEnd r +:+ suffix)).
    by rewrite <-Hr.
Qed.

Lemma space_prefix_app p q x :
  space_prefix p = Some x -> space_prefix (p +:+ q) = Some (x +:+ q).
Proof.
  destruct p as [|a [|b [|c t]]]; cbn [space_prefix]; try done.
  - change (String a "" +:+ q) with (String a q). cbn [space_prefix].
    destruct (is_space a); [|done]. by intros [= <-].
  - change (String a (String b "") +:+ q) with (String a (String b q)).
    cbn [space_prefix].
    destruct (is_space a); [by intros [= <-]|].
    destruct (is_space2 a b); [|done]. by intros [= <-].
  - change (String a (String b (String c t)) +:+ q)
      with (String a (String b (String c (t +:+ q)))).
    cbn [space_prefix].
    destruct (is_space a); [by intros [= <-]|].
    destruct (is_space2 a b); [by intros [= <-]|].
    destruct (is_space3 a b c); [|done]. by intros [= <-].
Qed.

Lemma space_prefix_trimEnd t :
  space_prefix t = None -> space_prefix (trimEnd t) = None.
Proof.
  intros Ht. destruct (trimEnd_cut t) as (suffix & Hcut & _).
  destruct (space_prefix (trimEnd t)) as [x|] eqn:Hp; [|done].
  apply (space_prefix_app _ suffix) in Hp. rewrite <-Hcut in Hp. congruence.
Qed.

(** A trimmed text does not start with white space. *)
Lemma trim_no_leading s : space_prefix (trim s) = None.
Proof. apply space_prefix_trimEnd, trimStart_no_prefix. Qed.

Lemma all_space_app a b :
  all_space a = true -> all_space b = true -> all_space (a +:+ b) = true.
Proof.
  intros Ha Hb. induction a as [a IH] using string_length_ind.
  destruct a as [|c t]; [done|].
  rewrite all_space_unfold in Ha.
  destruct (space_prefix (String c t)) as [r|] eqn:Hp; [|done].
  rewrite all_space_unfold, (space_prefix_app _ b _ Hp).
  change (String c t +:+ b) with (String c (t +:+ b)). cbv iota.
  apply IH; [by apply space_prefix_length|done].
Qed.

(** What [trimEnd] returns does not end with white space. *)
Lemma trimEnd_no_trailing t p q :
  trimEnd t = p +:+ q -> q <> "" -> all_space q = false.
Proof.
  revert p. induction t as [|a r IH]; intros p.
  - destruct p, q; done.
  - cbn [trimEnd]. destruct (all_space (String a r)) eqn:Hall.
    + destruct p, q; done.
    + destruct p as [|a' p'].
      * change ("" +:+ q) with q. intros <- _.
        apply not_true_is_false. intros Hq.
        destruct (trimEnd_cut r) as (suffix & Hcut & Hs).
        pose proof (all_space_app _ _ Hq Hs) as Happ.
        change (String a (trimEnd r) +:+ suffix)
          with (String a (trimEnd r +:+ suffix)) in Happ.
        rewrite <-Hcut in Happ. congruence.
      * change (String a' p' +:+ q) with (String a' (p' +:+ q)).
        intros [= _ Hr] Hq. by apply (IH p').
Qed.

(** A trimmed text does not end with white space. *)
Lemma trim_no_trailing s p q :
  trim s = p +:+ q -> q <> "" -> all_space q = false.
Proof. apply trimEnd_no_trailing. Qed.

Fixpoint contains (sep : ascii) (s : string) : bool :=
  match s with
  | EmptyString => false
  | String c r => Ascii.eqb c sep || contains sep r
  end.

Lemma split_app_sep sep p e :
  split sep (p +:+ String sep e) = split sep p ++ split sep e.
Proof.
  induction p as [|c p IH].
  - change ("" +:+ String sep e) with (String sep e).
    cbn [split]. by rewrite Ascii.eqb_refl.
  - change (String c p +:+ String sep e) with (String c (p +:+ String sep e)).
    cbn [split]. destruct (Ascii.eqb c sep); [by rewrite IH|].
    rewrite IH. pose proof (split_nonempty sep p).
    by destruct (split sep p).
Qed.

Lemma split_no_sep sep s : contains sep s = false -> split sep s = [s].
Proof.
  induction s as [|c r IH]; cbn [contains split]; [done|].
  intros [Hc Hr]%orb_false_elim. by rewrite Hc, (IH Hr).
Qed.

Lemma cut_at_last_sep sep s :
  contains sep s = false \/
  exists p e, s = p +:+ String sep e /\ contains sep e = false.
Proof.
  induction s as [|c r IH]; cbn [contains]; [by left|].
  destruct IH as [Hr|(p & e & -> & He)].
  - destruct (Ascii.eqb c sep) eqn:Hc; [|by left].
    right. exists "", r. apply Ascii.eqb_eq in Hc as ->. done.
  - right. by exists (String c p), e.
Qed.

Lemma pop_app l k : k <> [] -> pop (l ++ k) = pop k.
Proof.
  intros Hk. unfold pop. rewrite last_app.
  destruct (last k) eqn:E; [done|]. by apply last_None in E.
Qed.

(** The last piece of [s.split(sep)] is the text after the last separator,
    or all of [s] when it has none. *)
Lemma pop_split_after_sep sep p e :
  contains sep e = false -> pop (split sep (p +:+ String sep e)) = e.
Proof.
  intros He. rewrite split_app_sep, pop_app by apply split_nonempty.
  by rewrite (split_no_sep _ _ He).
Qed.

Lemma lower_char_dot c : Ascii.eqb (lower_char c) "." = Ascii.eqb c ".".
Proof. by destruct c as [[] [] [] [] [] [] [] []]. Qed.

Lemma split_dot_lower s :
  split "." (toLowerCase s) = toLowerCase <$> split "." s.
Proof.
  induction s as [|c r IH]; cbn [toLowerCase split]; [done|].
  rewrite lower_char_dot, IH.
  destruct (Ascii.eqb c "."); [done|].
  by destruct (split "." r).
Qed.

Lemma pop_split_dot_lower s :
  toLowerCase (pop (split "." s)) = pop (split "." (toLowerCase s)).
Proof.
  rewrite split_dot_lower. unfold pop. rewrite fmap_last.
  by destruct (last (split "." s)).
Qed.

(** What [split('.').pop()] being [e] says about the whole name, for a
    piece [e] without a dot. *)
Lemma pop_split_dot_eq t e :
  contains "." e = false ->
  pop (split "." t) = e <-> t = e \/ endsWith (String "." e) t = true.
Proof.
  intros He. rewrite endsWith_spec. split.
  - destruct (cut_at_last_sep "." t) as [Ht|(p & e' & -> & He')].
    + rewrite (split_no_sep _ _ Ht). by left.
    + rewrite (pop_split_after_sep _ _ _ He'). intros ->. right. by exists p.
  - intros [->|[p ->]].
    + by rewrite (split_no_sep _ _ He).
    + by apply pop_split_after_sep.
Qed.

End js_facts.

(** ** Facts about the handler combinators *)
Section handler_facts.
Context {D E : Type}.
Implicit Types (h k : Handler D E) (st : D).

Lemma seq_fst h k st : ((h >>> k) st).1 = (k (h st).1).1.
Proof. unfold seq. destruct (h st) as [st1 e1], (k st1) as [st2 e2] eqn:Hk. simpl. by rewrite Hk. Qed.

Lemma seq_snd h k st : ((h >>> k) st).2 = (h st).2 ++ (k (h st).1).2.
Proof. unfold seq. destruct (h st) as [st1 e1], (k st1) as [st2 e2] eqn:Hk. simpl. by rewrite Hk. Qed.

Lemma seq_eq h k st st1 e1 st2 e2 :
  h st = (st1, e1) -> k st1 = (st2, e2) -> (h >>> k) st = (st2, e1 ++ e2).
Proof. unfold seq. by intros -> ->. Qed.

End handler_facts.

(** ** DocumentProcessor: the pending list *)
Section document_processor_facts.
Import Js DocumentProcessor.
Local Abbreviation H := (Handler Data Effect).
Implicit Types (st : Data) (file f : File) (files : list File).

(** Sample files and outcome objects. *)
Definition contrato : File :=
  {| name := "contrato.pdf"; type := "application/pdf"; size := 1024 |}.
Definition poder : File :=
  {| name := "poder.pdf"; type := "application/pdf"; size := 2048 |}.
Definition setup_exe : File :=
  {| name := "setup.exe"; type := "application/x-msdownload"; size := 7 |}.
Definition accepted (f : File) (id : string) : UploadResult :=
  {| r_success := true; r_filename := name f; r_file_id := Some id;
     r_uploaded_at := Some "2024-01-15T10:30:00.000000" |}.

(** The list [addFiles] leaves behind: the files of [vs] appended one by one,
    each unless an entry with its name and size is already there. *)
Fixpoint merge (l vs : list File) : list File :=
  match vs with
  | [] => l
  | v :: r => merge (if existsb (sameFile v) l then l else l ++ [v]) r
  end.

Lemma set_uploadedFiles_id st : set_uploadedFiles (uploadedFiles st) st = st.
Proof. by destruct st. Qed.

Lemma showStatus_eq ty msg st :
  showStatus ty msg st =
  (set_uploadStatus (Some {| status_type := ty; message := msg |}) st,
   match ty with success => [SetTimeout 5000] | _ => [] end).
Proof. by destruct ty. Qed.

Lemma addOne_eq v st :
  addOne v st =
  (if existsb (sameFile v) (uploadedFiles st) then st else push v st, []).
Proof. unfold addOne. by destruct (existsb _ _). Qed.

Lemma forEach_addOne vs st :
  forEach vs addOne st = (set_uploadedFiles (merge (uploadedFiles st) vs) st, []).
Proof.
  revert st. induction vs as [|v r IH]; intros st; cbn [forEach merge].
  - unfold skip. by rewrite set_uploadedFiles_id.
  - erewrite seq_eq; [|apply addOne_eq|apply IH].
    by destruct (existsb _ _), st.
Qed.

Lemma when_showStatus_info (c : bool) msg st :
  when c (showStatus info msg) st =
  (if c then set_uploadStatus (Some {| status_type := info; message := msg |}) st
   else st, []).
Proof. by destruct c. Qed.

(** [addFiles] as one expression on the data. *)
Lemma addFiles_eq files st :
  addFiles files st =
  let validFiles := List.filter isValidFile files in
  if (length validFiles =? 0)%nat && (0 <? length files)%nat then
    (set_uploadStatus
       (Some {| status_type := error;
                message := "Por favor, selecciona solo archivos PDF" |}) st, [])
  else
    let st1 :=
      if (length validFiles <? length files)%nat then
        set_uploadStatus
          (Some {| status_type := info;
                   message := pretty (length files - length validFiles)%nat +:+
                     " archivo(s) rechazado(s). Solo se aceptan archivos PDF" |}) st
      else st in
    let st2 := set_uploadedFiles (merge (uploadedFiles st1) validFiles) st1 in
    (if (0 <? length validFiles)%nat then
       set_uploadStatus
         (Some {| status_type := info;
                  message := pretty (length validFiles) +:+
                             " archivo(s) agregado(s)" |}) st2
     else st2, []).
Proof.
  unfold addFiles. cbv zeta.
  destruct (_ && _); [apply showStatus_eq|].
  by rewrite (seq_eq _ _ st _ _ _ _
    (seq_eq _ _ st _ _ _ _ (when_showStatus_info _ _ _) (forEach_addOne _ _))
    (when_showStatus_info _ _ _)).
Qed.

Lemma addFiles_uploadedFiles files st :
  uploadedFiles (addFiles files st).1 =
  merge (uploadedFiles st) (List.filter isValidFile files).
Proof.
  rewrite addFiles_eq. cbv zeta.
  destruct (_ && _) eqn:Hc.
  - apply andb_prop in Hc as [Hv _].
    apply Nat.eqb_eq, length_zero_iff_nil in Hv. rewrite Hv. reflexivity.
  - clear Hc.
    by destruct (0 <? length _)%nat, (length _ <? length files)%nat.
Qed.

Lemma addFiles_effects files st : (addFiles files st).2 = [].
Proof. rewrite addFiles_eq. cbv zeta. by destruct (_ && _). Qed.

Lemma addFiles_uploading files st : uploading (addFiles files st).1 = uploading st.
Proof.
  rewrite addFiles_eq. cbv zeta.
  destruct (_ && _); [done|].
  by destruct (0 <? length _)%nat, (length _ <? length files)%nat.
Qed.

Lemma existsb_sameFile v l :
  existsb (sameFile v) l = true <-> key v ∈ key <$> l.
Proof.
  rewrite existsb_exists, list_elem_of_fmap. unfold sameFile, key.
  split.
  - intros (f & Hf%list_elem_of_In & [Hn Hs]%andb_prop).
    apply String.eqb_eq in Hn. apply N.eqb_eq in Hs.
    exists f. by rewrite Hn, Hs.
  - intros (f & Hk & Hf%list_elem_of_In). exists f. split; [done|].
    injection Hk as -> ->. by rewrite String.eqb_refl, N.eqb_refl.
Qed.

Lemma merge_app l vs : exists added,
  merge l vs = l ++ added /\
  (forall f, f ∈ added -> f ∈ vs /\ key f ∉ key <$> l) /\
  NoDup (key <$> added).
Proof.
  revert l. induction vs as [|v r IH]; intros l; cbn [merge].
  - exists []. rewrite app_nil_r. split_and!; [done|by intros ? ?%elem_of_nil|constructor].
  - destruct (existsb (sameFile v) l) eqn:Hex.
    + destruct (IH l) as (added & -> & Hin & Hnd). exists added.
      split_and!; [done| |done].
      intros f Hf. destruct (Hin f Hf). split; [by right|done].
    + destruct (IH (l ++ [v])) as (added & -> & Hin & Hnd).
      assert (Hv : key v ∉ key <$> l).
      { intros Hk%existsb_sameFile. congruence. }
      exists (v :: added). rewrite <-app_assoc. split_and!; [done| |].
      * intros f [->|Hf]%elem_of_cons; [split; [by left|done]|].
        destruct (Hin f Hf) as [? Hk]. split; [by right|].
        intros Hkl. apply Hk. rewrite fmap_app. apply elem_of_app. by left.
      * rewrite fmap_cons. constructor; [|done].
        intros (f & Hk & Hf)%list_elem_of_fmap.
        destruct (Hin f Hf) as [_ Hnk]. apply Hnk.
        rewrite fmap_app, <-Hk. apply elem_of_app. right. by left.
Qed.

Lemma merge_NoDup l vs : NoDup (key <$> l) -> NoDup (key <$> merge l vs).
Proof.
  intros Hl. destruct (merge_app l vs) as (added & -> & Hin & Hnd).
  rewrite fmap_app. apply NoDup_app. split_and!; [done| |done].
  intros k Hk (f & -> & Hf)%list_elem_of_fmap. by destruct (Hin f Hf).
Qed.

Lemma removeFile_uploadedFiles index st :
  uploadedFiles (removeFile index st).1 = delete index (uploadedFiles st).
Proof.
  unfold removeFile. rewrite seq_fst. cbn.
  by destruct (length _ =? 0)%nat.
Qed.

Lemma listOp_NoDup op st :
  NoDup (key <$> uploadedFiles st) -> NoDup (key <$> uploadedFiles (listOp op st).1).
Proof.
  intros Hnd. destruct op as [files|index|]; cbn [listOp].
  - rewrite addFiles_uploadedFiles. by apply merge_NoDup.
  - rewrite removeFile_uploadedFiles, list_fmap_delete.
    eapply sublist_NoDup; [exact Hnd|apply sublist_delete].
  - cbn. constructor.
Qed.

Lemma runOps_NoDup ops st :
  NoDup (key <$> uploadedFiles st) -> NoDup (key <$> uploadedFiles (runOps ops st)).
Proof.
  revert st. induction ops as [|op ops IH]; intros st Hnd; [done|].
  apply IH. by apply listOp_NoDup.
Qed.

(** C8. However [addFiles], [removeFile] and [clearFiles] are interleaved from
    the empty list, no two entries of [uploadedFiles] have the same name and
    the same size; and what [addFiles] appends has a name-size pair that the
    list did not hold, each pair once. *)
Theorem uploadedFiles_unique_keys env ops :
  NoDup (key <$> uploadedFiles (runOps ops (data env))) /\
  forall files st, exists added,
    uploadedFiles (addFiles files st).1 = uploadedFiles st ++ added /\
    (forall f, f ∈ added -> key f ∉ key <$> uploadedFiles st) /\
    NoDup (key <$> added).
Proof.
  split.
  - apply runOps_NoDup. cbn. constructor.
  - intros files st. rewrite addFiles_uploadedFiles.
    destruct (merge_app (uploadedFiles st) (List.filter isValidFile files))
      as (added & -> & Hin & Hnd).
    exists added. split_and!; [done| |done].
    intros f Hf. by destruct (Hin f Hf).
Qed.

(** *** Which files pass the filter of [addFiles] *)

Lemma extension_is_pdf file :
  isValidFile file = true <->
  type file = "application/pdf" \/
  toLowerCase (name file) = "pdf" \/
  endsWith ".pdf" (toLowerCase (name file)) = true.
Proof.
  unfold isValidFile, allowedType, allowedExtension. cbv zeta.
  rewrite orb_true_iff, !String.eqb_eq, pop_split_dot_lower.
  change ("." +:+ ?x) with (String "." x).
  rewrite <-(pop_split_dot_eq (toLowerCase (name file)) "pdf") by done.
  split; (intros [?|H]; [by left|right]); [by injection H|by rewrite H].
Qed.

(** A name that is the bare word [pdf] passes [addFiles] whatever its type,
    and does not pass the filter of [handleDrop]. *)
Example bare_word_pdf :
  let file := {| name := "PDF"; type := "text/plain"; size := 1 |} in
  isValidFile file = true /\ isDroppedPdf file = false.
Proof. done. Qed.

Lemma merge_elem_of l vs f :
  f ∈ merge l vs -> f ∈ l \/ f ∈ vs.
Proof.
  destruct (merge_app l vs) as (added & -> & Hin & _).
  intros [?|Hf]%elem_of_app; [by left|right]. by destruct (Hin f Hf).
Qed.

Lemma filter_nil_Forall {A} (p : A -> bool) (l : list A) :
  Forall (fun x => p x = false) l -> List.filter p l = [].
Proof.
  induction 1 as [|x l Hx _ IH]; cbn [List.filter]; [done|]. by rewrite Hx.
Qed.

Lemma addFiles_nil st : addFiles [] st = (st, []).
Proof. rewrite addFiles_eq. cbn. by destruct st. Qed.

Lemma uploadFiles_start_eq st :
  uploadFiles_start st =
  if (length (uploadedFiles st) =? 0)%nat || uploading st then (st, [])
  else
    (set_uploadStatus None (set_uploading true st),
     [Post {| endpoint := if (length (uploadedFiles st) =? 1)%nat
                          then apiUrl st +:+ "/upload"
                          else apiUrl st +:+ "/upload/multiple";
              formData := (fun file => ("files", file)) <$> uploadedFiles st;
              contentType := "multipart/form-data" |}]).
Proof. unfold uploadFiles_start. by destruct (_ || _). Qed.

(** The claim of C1 fails on the empty list, which is what [handleDrop] passes
    on when nothing dropped is a PDF: no file is valid, and no status is
    shown. *)
Lemma addFiles_nothing_valid_no_error :
  Forall (fun f => isValidFile f = false) [] /\
  uploadStatus (addFiles [] (data None)).1 = None /\
  isValidFile setup_exe = false /\
  uploadStatus (handleDrop [setup_exe] (data None)).1 = None.
Proof. split_and!; [constructor|done..]. Qed.

(** C1, amended.  A file whose name is not the bare word [pdf] passes the
    filter of [addFiles] exactly when its declared type is [application/pdf]
    or its lower-cased name ends in [.pdf]; what [addFiles] puts in the
    pending list was there before or is a file of the argument that passed the
    filter; a non-empty argument without a valid file gives the error status
    and nothing else; the empty argument changes nothing; a drop without a PDF
    only resets [isDragging]; and the request of [uploadFiles] carries the
    pending list and nothing else. *)
Theorem addFiles_rejects_non_pdf :
  (forall file, toLowerCase (name file) <> "pdf" ->
     isValidFile file = true <->
     type file = "application/pdf" \/
     endsWith ".pdf" (toLowerCase (name file)) = true) /\
  (forall files st file,
     file ∈ uploadedFiles (addFiles files st).1 ->
     file ∈ uploadedFiles st \/ (file ∈ files /\ isValidFile file = true)) /\
  (forall files st,
     files <> [] -> Forall (fun f => isValidFile f = false) files ->
     addFiles files st =
     (set_uploadStatus
        (Some {| status_type := error;
                 message := "Por favor, selecciona solo archivos PDF" |}) st, [])) /\
  (forall st, addFiles [] st = (st, [])) /\
  (forall files st,
     Forall (fun f => isDroppedPdf f = false) files ->
     handleDrop files st = (set_isDragging false st, [])) /\
  (forall st r,
     Post r ∈ (uploadFiles_start st).2 -> (formData r).*2 = uploadedFiles st).
Proof.
  split_and!.
  - intros file Hbare. rewrite extension_is_pdf. tauto.
  - intros files st file. rewrite addFiles_uploadedFiles.
    intros [?|Hf]%merge_elem_of; [by left|right].
    apply list_elem_of_In, filter_In in Hf as [Hf ?]. by apply list_elem_of_In in Hf.
  - intros files st Hne Hall. rewrite addFiles_eq. cbv zeta.
    rewrite (filter_nil_Forall _ _ Hall). by destruct files.
  - apply addFiles_nil.
  - intros files st Hall. unfold handleDrop.
    rewrite (filter_nil_Forall _ _ Hall).
    by erewrite seq_eq; [|reflexivity|apply addFiles_nil].
  - intros st r. rewrite uploadFiles_start_eq.
    destruct (_ || _); cbn [snd]; [by intros ?%elem_of_nil|].
    intros Hr%list_elem_of_singleton. injection Hr as ->. cbn [formData].
    rewrite <-list_fmap_compose. apply list_fmap_id.
Qed.

Lemma addFiles_rejects_non_pdf_witness :
  addFiles [setup_exe] (data None) =
  (set_uploadStatus
     (Some {| status_type := error;
              message := "Por favor, selecciona solo archivos PDF" |}) (data None), []).
Proof.
  destruct addFiles_rejects_non_pdf as (_ & _ & Hnone & _).
  apply Hnone; [discriminate|]. repeat constructor.
Defined.

(** *** The request of [uploadFiles] *)

(** The claim of C2 fails with one pending file: the request goes to
    [/upload], and the file travels under the field [files]. *)
Lemma single_upload_field_is_files :
  exists r,
    uploadedFiles (addFiles [contrato] (data None)).1 = [contrato] /\
    (uploadFiles_start (addFiles [contrato] (data None)).1).2 = [Post r] /\
    endpoint r = "/api/upload" /\
    formData r = [("files", contrato)] /\
    formData r <> [("file", contrato)].
Proof. eexists. split_and!; [reflexivity..|discriminate]. Qed.

(** C2, amended.  When no upload is in progress, [uploadFiles] with exactly
    one pending file issues one multipart POST to [{apiUrl}/upload] carrying
    that file under the form field [files] and no other field, and with two or
    more pending files it issues one multipart POST to
    [{apiUrl}/upload/multiple] carrying every pending file, in the order of
    the list, under the form field [files]. *)
Theorem uploadFiles_request st :
  uploading st = false ->
  (forall file, uploadedFiles st = [file] ->
     (uploadFiles_start st).2 =
     [Post {| endpoint := apiUrl st +:+ "/upload";
              formData := [("files", file)];
              contentType := "multipart/form-data" |}]) /\
  (2 <= length (uploadedFiles st) ->
     (uploadFiles_start st).2 =
     [Post {| endpoint := apiUrl st +:+ "/upload/multiple";
              formData := (fun file => ("files", file)) <$> uploadedFiles st;
              contentType := "multipart/form-data" |}]).
Proof.
  intros Hup. rewrite uploadFiles_start_eq, Hup. split.
  - by intros file ->.
  - intros Hlen. by destruct (uploadedFiles st) as [|f1 [|f2 l]]; [cbn in Hlen; lia..|].
Qed.

Lemma uploadFiles_request_witness :
  (uploadFiles_start (addFiles [contrato] (data None)).1).2 =
  [Post {| endpoint := "/api/upload";
           formData := [("files", contrato)];
           contentType := "multipart/form-data" |}].
Proof.
  destruct (uploadFiles_request (addFiles [contrato] (data None)).1 eq_refl) as [Hone _].
  exact (Hone contrato eq_refl).
Defined.

(** *** The response of a multi-file upload *)

Lemma tallyMultiple_fold now rs acc :
  fold_left (tallyOne now) rs acc =
  {| uploadedDocs := uploadedDocs acc ++ (docOf now <$> List.filter r_success rs);
     successCount := successCount acc + length (List.filter r_success rs);
     failedCount :=
       failedCount acc + length (List.filter (fun r => negb (r_success r)) rs) |}.
Proof.
  revert acc. induction rs as [|r rs IH]; intros acc; cbn [fold_left List.filter].
  - destruct acc. cbn. by rewrite app_nil_r, !Nat.add_0_r.
  - rewrite IH. unfold tallyOne. destruct (r_success r); cbn.
    + by rewrite <-app_assoc, Nat.add_succ_r.
    + by rewrite Nat.add_succ_r.
Qed.

(** With a pending list that does not hold exactly one file when the response
    arrives, every outcome object is handled on its own: the successful ones
    are appended to [processedDocuments] in order, and the pending list is
    emptied exactly when none failed. *)
Lemma uploadFiles_settle_multiple now rs st :
  length (uploadedFiles st) <> 1 ->
  let st' := (uploadFiles_settle now (Resolved (Arr rs)) st).1 in
  processedDocuments st' =
    processedDocuments st ++ (docOf now <$> List.filter r_success rs) /\
  (Forall (fun r => r_success r = true) rs -> uploadedFiles st' = []) /\
  (Exists (fun r => r_success r = false) rs -> uploadedFiles st' = uploadedFiles st).
Proof.
  intros Hlen. cbv zeta. unfold uploadFiles_settle. rewrite seq_fst.
  unfold onResolved. apply Nat.eqb_neq in Hlen. rewrite Hlen.
  unfold tallyMultiple. rewrite tallyMultiple_fold.
  cbn [uploadedDocs successCount failedCount tally0 app Nat.add].
  rewrite !seq_fst. set (ok := List.filter r_success rs).
  set (ko := List.filter (fun r => negb (r_success r)) rs).
  assert (Hko : (length ko =? 0)%nat = forallb r_success rs).
  { subst ko. clear. induction rs as [|r rs IH]; [done|]. cbn.
    destruct (r_success r); cbn; [done|done]. }
  rewrite Hko. split_and!.
  - destruct (0 <? length (docOf now <$> ok))%nat eqn:Hdocs; cbn [when].
    + unfold when. by repeat case_match.
    + apply Nat.ltb_ge in Hdocs. destruct ok; [|cbn in Hdocs; lia].
      rewrite app_nil_r. unfold when. by repeat case_match.
  - intros Hall. replace (forallb r_success rs) with true.
    2:{ symmetry. apply forallb_forall. intros r Hr.
        by eapply Forall_forall in Hall; [|by apply list_elem_of_In]. }
    unfold when. by repeat case_match.
  - intros Hex. replace (forallb r_success rs) with false.
    2:{ symmetry. apply not_true_is_false. intros Hall.
        apply Exists_exists in Hex as (r & Hr & Hf).
        eapply forallb_forall in Hall; [|by apply list_elem_of_In]. congruence. }
    unfold when. by repeat case_match.
Qed.

(** *** A file removed while a multi-file upload is in flight

    The user selects two PDFs and starts the upload, removes the second entry
    while the request is in flight (the remove button stays enabled), and the
    server then answers with two successful outcome objects. *)
Definition two_selected : System :=
  run (handleFileSelect [contrato; poder]) (mounted None).
Definition two_uploading : System := run uploadFiles_start two_selected.
Definition one_removed : System := run (removeFile 1) two_uploading.
Definition both_accepted : ResponseData :=
  Arr [accepted contrato "id-1"; accepted poder "id-2"].
Definition two_settled : System :=
  run (uploadFiles_settle 0 (Resolved both_accepted))
      {| comp := comp one_removed; requests := []; timers := timers one_removed |}.

(** C5.  In that run the request went to [/upload/multiple] with both files,
    the response is read by the single-file branch, no document is appended
    to [processedDocuments], the error status is shown and the pending list is
    kept, although no entry of the response failed. *)
Theorem multiple_response_after_removeFile :
  requests two_uploading =
    [{| endpoint := "/api/upload/multiple";
        formData := [("files", contrato); ("files", poder)];
        contentType := "multipart/form-data" |}] /\
  step two_selected two_uploading /\
  step two_uploading one_removed /\
  step one_removed two_settled /\
  uploadedFiles (comp one_removed) = [contrato] /\
  Forall (fun r => r_success r = true) [accepted contrato "id-1"; accepted poder "id-2"] /\
  processedDocuments (comp two_settled) = [] /\
  uploadStatus (comp two_settled) =
    Some {| status_type := error;
            message := "No se pudo subir ningún documento. Verifica los archivos e intenta de nuevo." |} /\
  uploadedFiles (comp two_settled) = [contrato].
Proof.
  split_and!; try done.
  - apply step_upload.
  - apply step_remove.
  - unfold two_settled.
    change one_removed with
      {| comp := comp one_removed;
         requests := [] ++ {| endpoint := "/api/upload/multiple";
                              formData := [("files", contrato); ("files", poder)];
                              contentType := "multipart/form-data" |} :: [];
         timers := timers one_removed |} at 1.
    apply (step_settle 0 (Resolved both_accepted)).
  - repeat constructor.
Qed.

(** *** Requests in flight *)

(** A handler that starts no request and leaves [uploading] alone. *)
Definition quiet (h : H) : Prop :=
  forall st, posts (h st).2 = [] /\ uploading (h st).1 = uploading st.

Lemma quiet_skip : quiet skip.
Proof. done. Qed.

Lemma quiet_assign (upd : Data -> Data) :
  (forall st, uploading (upd st) = uploading st) -> quiet (assign upd).
Proof. intros Hupd st. split; [done|apply Hupd]. Qed.

Lemma quiet_seq h k : quiet h -> quiet k -> quiet (h >>> k).
Proof.
  intros Hh Hk st. rewrite seq_fst, seq_snd.
  destruct (Hh st) as [Hp Hu], (Hk (h st).1) as [Hp' Hu'].
  unfold posts in *. rewrite omap_app, Hp, Hp'. split; [done|congruence].
Qed.

Lemma quiet_when c h : quiet h -> quiet (when c h).
Proof. destruct c; [done|]. intros _. apply quiet_skip. Qed.

Lemma quiet_showStatus ty msg : quiet (showStatus ty msg).
Proof. intros st. rewrite showStatus_eq. by destruct ty. Qed.

Lemma quiet_addFiles files : quiet (addFiles files).
Proof.
  intros st. by rewrite addFiles_effects, addFiles_uploading.
Qed.

Lemma quiet_clearFiles : quiet clearFiles.
Proof. apply quiet_seq; by apply quiet_assign. Qed.

Lemma quiet_removeFile index : quiet (removeFile index).
Proof.
  apply quiet_seq; [by apply quiet_assign|].
  intros st. destruct (length (uploadedFiles st) =? 0)%nat; by cbn.
Qed.

Lemma quiet_handleDrop files : quiet (handleDrop files).
Proof. apply quiet_seq; [by apply quiet_assign|apply quiet_addFiles]. Qed.

Lemma quiet_onResolved now data : quiet (onResolved now data).
Proof.
  intros st. unfold onResolved. cbv zeta.
  apply quiet_seq; [apply quiet_seq|].
  - by apply quiet_when, quiet_assign.
  - repeat case_match; apply quiet_showStatus.
  - apply quiet_when, quiet_clearFiles.
Qed.

Lemma quiet_onRejected response : quiet (onRejected response).
Proof. unfold onRejected. cbv zeta. repeat case_match; apply quiet_showStatus. Qed.

Create HintDb quiet.
Hint Resolve quiet_skip quiet_addFiles quiet_clearFiles quiet_removeFile
  quiet_handleDrop quiet_onResolved quiet_onRejected quiet_showStatus : quiet.

Lemma run_quiet h s :
  quiet h ->
  requests (run h s) = requests s /\ uploading (comp (run h s)) = uploading (comp s).
Proof.
  intros Hq. unfold run. destruct (Hq (comp s)) as [Hp Hu].
  destruct (h (comp s)) as [st es]. cbn [fst snd requests comp] in *.
  by rewrite Hp, app_nil_r.
Qed.

Lemma run_uploadFiles_settle now o s :
  requests (run (uploadFiles_settle now o) s) = requests s /\
  uploading (comp (run (uploadFiles_settle now o) s)) = false.
Proof.
  assert (Hq : quiet (match o with
                      | Resolved data => onResolved now data
                      | Rejected response => onRejected response
                      end)) by (destruct o; auto with quiet).
  unfold run, uploadFiles_settle.
  pose proof (seq_fst (match o with
                | Resolved data => onResolved now data
                | Rejected response => onRejected response
                end) (assign (set_uploading false)) (comp s)) as Hfst.
  pose proof (seq_snd (match o with
                | Resolved data => onResolved now data
                | Rejected response => onRejected response
                end) (assign (set_uploading false)) (comp s)) as Hsnd.
  destruct ((_ >>> _) (comp s)) as [st es]. cbn [fst snd assign] in Hfst, Hsnd.
  subst st es. cbn [requests comp]. destruct (Hq (comp s)) as [Hp _].
  unfold posts in *. by rewrite omap_app, Hp, !app_nil_r.
Qed.

(** A request is in flight exactly while [uploading] is set, and then there
    is one. *)
Definition upload_in_flight (s : System) : Prop :=
  length (requests s) = if uploading (comp s) then 1 else 0.

Lemma run_uploadFiles_start s :
  upload_in_flight s -> upload_in_flight (run uploadFiles_start s).
Proof.
  unfold upload_in_flight, run. rewrite uploadFiles_start_eq.
  destruct (uploading (comp s)) eqn:Hup.
  - rewrite orb_true_r. cbn. rewrite Hup, app_nil_r. done.
  - rewrite orb_false_r. destruct (length (uploadedFiles (comp s)) =? 0)%nat; cbn.
    + by rewrite Hup, app_nil_r.
    + intros Hreq. rewrite length_app, Hreq. done.
Qed.

Lemma step_upload_in_flight s s' :
  step s s' -> upload_in_flight s -> upload_in_flight s'.
Proof.
  unfold upload_in_flight.
  destruct 1 as [files s|files s| s | s |index s| s | s |now o st rs1 r rs2 n|st rs n];
    intros Hinv.
  1-6: match goal with |- context [run ?h ?s0] =>
         destruct (run_quiet h s0) as [-> ->];
           [first [by auto with quiet | by apply quiet_assign]|done] end.
  - by apply run_uploadFiles_start.
  - match goal with |- context [run _ ?s0] =>
      destruct (run_uploadFiles_settle now o s0) as [-> ->] end.
    cbn in *. rewrite length_app in *. cbn in Hinv.
    destruct (uploading st); lia.
  - match goal with |- context [run ?h ?s0] =>
      destruct (run_quiet h s0) as [-> ->]; [by apply quiet_assign|done] end.
Qed.

Lemma reachable_upload_in_flight s : reachable s -> upload_in_flight s.
Proof.
  intros [env Hs]. revert s Hs. apply rtc_ind_r; [done|].
  intros s s' _ Hstep IH. by eapply step_upload_in_flight.
Qed.

(** [uploading] falls only in a step that takes a request out of flight. *)
Lemma step_uploading_falls s s' :
  step s s' -> uploading (comp s) = true -> uploading (comp s') = false ->
  length (requests s') < length (requests s).
Proof.
  destruct 1 as [files s|files s| s | s |index s| s | s |now o st rs1 r rs2 n|st rs n];
    intros Hup Hdown.
  1-6: match goal with H : context [run ?h ?s0] |- _ =>
         destruct (run_quiet h s0) as [_ Heq];
           [first [by auto with quiet | by apply quiet_assign]|congruence] end.
  - unfold run in Hdown. rewrite uploadFiles_start_eq, Hup, orb_true_r in Hdown.
    cbn in Hdown. congruence.
  - match goal with |- context [run _ ?s0] =>
      destruct (run_uploadFiles_settle now o s0) as [-> _] end.
    cbn. rewrite !length_app. cbn. lia.
  - match goal with H : context [run ?h ?s0] |- _ =>
      destruct (run_quiet h s0) as [_ Heq]; [by apply quiet_assign|] end.
    cbn in *. congruence.
Qed.

End document_processor_facts.

(** ** Chat: requests, answers and faults *)
Section chat_facts.
Import Js Chat.
Local Abbreviation H := (Handler Data Effect).
Implicit Types (st : Data) (s : System).

Lemma sendMessage_start_eq now st :
  sendMessage_start now st =
  if negb (truthy (trim (currentMessage st))) || loading st then (st, [])
  else
    (set_loading true
       (set_messages (messages st ++ [userMsg now (trim (currentMessage st))])
          (set_currentMessage "" st)),
     [Post {| url := apiUrl st +:+ "/chat";
              requestBody := makeRequestBody (trim (currentMessage st)) st;
              contentType := "application/json" |}]).
Proof. unfold sendMessage_start. by destruct (_ || _). Qed.

Lemma sendMessage_settle_eq now o st :
  sendMessage_settle now o st =
  (set_loading false
     (set_messages
        (messages st ++
         [match o with
          | Resolved data => assistantMessage now data
          | Rejected err =>
              {| msg_type := error; content := errorMessage err;
                 msg_sources := None; modelUsed := None; timestamp := now |}
          end]) st), []).
Proof. by destruct o. Qed.

(** The three request options hold the values of [data()]. *)
Definition pinned st : Prop :=
  model st = "mistral:7b-instruct" /\ maxChunks st = 5%N /\ temperature st = 7 # 10.

Lemma run_frame (h : H) s {A} (field : Data -> A) :
  (forall st, field (h st).1 = field st) -> field (comp (run h s)) = field (comp s).
Proof. intros Hh. unfold run. specialize (Hh (comp s)). by destruct (h (comp s)). Qed.

Lemma sendMessage_start_options now st :
  model (sendMessage_start now st).1 = model st /\
  maxChunks (sendMessage_start now st).1 = maxChunks st /\
  temperature (sendMessage_start now st).1 = temperature st.
Proof. rewrite sendMessage_start_eq. by destruct (_ || _). Qed.

Lemma step_pinned s s' : step s s' -> pinned (comp s) -> pinned (comp s').
Proof.
  unfold pinned. destruct 1 as [text s|now s|now o st rs1 r rs2].
  - by rewrite !(run_frame _ s) by done.
  - by rewrite !(run_frame _ s) by apply sendMessage_start_options.
  - unfold run. by rewrite sendMessage_settle_eq.
Qed.

Lemma reachable_pinned s : reachable s -> pinned (comp s).
Proof.
  intros (env & now & Hs). revert s Hs. apply rtc_ind_r; [done|].
  intros s s' _ Hstep IH. by eapply step_pinned.
Qed.

(** C3.  In every state the component reaches, [model], [maxChunks] and
    [temperature] hold the values of [data()]; with these, the body of every
    request of [sendMessage] is the trimmed text, the model
    [mistral:7b-instruct], [max_chunks] 5, [temperature] 0.7, and the
    [file_id] of the filter when [selectedFileId] is set, no [file_id]
    otherwise. *)
Theorem sendMessage_request_body :
  (forall s, reachable s -> pinned (comp s)) /\
  (forall now st r,
     pinned st -> Post r ∈ (sendMessage_start now st).2 ->
     url r = apiUrl st +:+ "/chat" /\
     requestBody r =
     {| Body.question := trim (currentMessage st);
        Body.model := "mistral:7b-instruct";
        Body.max_chunks := 5;
        Body.temperature := 7 # 10;
        Body.file_id := if truthy_opt (selectedFileId st)
                        then selectedFileId st else None |}) /\
  (forall st userMessage,
     is_Some (Body.file_id (makeRequestBody userMessage st)) <->
     truthy_opt (selectedFileId st) = true).
Proof.
  split_and!.
  - apply reachable_pinned.
  - intros now st r (Hm & Hc & Ht). rewrite sendMessage_start_eq.
    destruct (_ || _); cbn [snd]; [by intros ?%elem_of_nil|].
    intros Hr%list_elem_of_singleton. injection Hr as ->.
    cbn [url requestBody]. unfold makeRequestBody. by rewrite Hm, Hc, Ht.
  - intros st userMessage. cbn.
    destruct (selectedFileId st) as [[|c id]|]; cbn; split;
      first [done | by intros [? ?] | by eexists].
Qed.

(** A question typed with blanks around it, in the state after [mounted()]. *)
Definition asking : System :=
  run (assign (set_currentMessage "  hola  ")) (created None 0).

Lemma asking_reachable : reachable asking.
Proof. exists None, 0%N. apply rtc_once, step_input. Qed.

Lemma sendMessage_request_body_witness :
  exists r,
    (sendMessage_start 1 (comp asking)).2 = [Post r] /\
    url r = "/api/chat" /\
    requestBody r =
    {| Body.question := "hola";
       Body.model := "mistral:7b-instruct";
       Body.max_chunks := 5;
       Body.temperature := 7 # 10;
       Body.file_id := None |}.
Proof.
  eexists. split; [reflexivity|].
  destruct sendMessage_request_body as (Hreach & Hbody & _).
  apply (Hbody 1%N (comp asking)).
  - apply Hreach, asking_reachable.
  - apply list_elem_of_singleton. reflexivity.
Defined.

(** *** The guard on the question *)

(** C7.  With a [currentMessage] that is empty or made of white space only
    (any of the characters [trim] strips), [sendMessage] starts no request
    and leaves the whole state as it is; the question of a request that is
    sent is the trimmed text, which is not empty and neither starts nor
    ends with white space. *)
Theorem sendMessage_blank_is_noop now st :
  (all_space (currentMessage st) = true -> sendMessage_start now st = (st, [])) /\
  (forall r, Post r ∈ (sendMessage_start now st).2 ->
     Body.question (requestBody r) = trim (currentMessage st) /\
     Body.question (requestBody r) <> "" /\
     all_space (currentMessage st) = false /\
     space_prefix (Body.question (requestBody r)) = None /\
     forall p q, Body.question (requestBody r) = p +:+ q -> q <> "" ->
                 all_space q = false).
Proof.
  rewrite sendMessage_start_eq. split.
  - intros Hblank%trim_all_space. by rewrite Hblank.
  - intros r. destruct (truthy (trim (currentMessage st))) eqn:Htrim;
      cbn [negb orb]; [|by intros ?%elem_of_nil].
    destruct (loading st); cbn [snd]; [by intros ?%elem_of_nil|].
    intros Hr%list_elem_of_singleton. injection Hr as ->. cbn.
    split_and!; [done|by destruct (trim _)| |apply trim_no_leading
                |apply trim_no_trailing].
    apply not_true_is_false. intros Hblank%trim_all_space.
    by rewrite Hblank in Htrim.
Qed.

(** A blank text: U+3000, U+00A0, a line break and a space. *)
Definition wide_blank : string :=
  String "227" (String "128" (String "128"
    (String "194" (String "160" (String "010" " "))))).

Lemma sendMessage_blank_is_noop_witness :
  sendMessage_start 1 (set_currentMessage wide_blank (data None)) =
  (set_currentMessage wide_blank (data None), []).
Proof.
  destruct (sendMessage_blank_is_noop 1 (set_currentMessage wide_blank (data None)))
    as [Hnoop _].
  apply Hnoop. reflexivity.
Defined.

(** *** Faults *)

(** The rejection of a call answered with the given status and detail. *)
Definition fault (status : nat) (detail : option string) : AxiosError :=
  {| response := Some {| status := status; detail := detail |}; code := None |}.

(** The claim of C4 fails when the backend sends a detail: the message shown
    is that detail whatever the status, so two fault kinds with the same
    detail get the same message. *)
Lemma fault_kinds_share_detail :
  errorMessage (fault 404 (Some "Solicitud rechazada")) =
  errorMessage (fault 400 (Some "Solicitud rechazada")) /\
  errorMessage (fault 400 (Some "Solicitud rechazada")) =
  errorMessage (fault 503 (Some "Solicitud rechazada")).
Proof. done. Qed.

Lemma or_else_truthy o d : truthy d = true -> truthy (or_else o d) = true.
Proof. intros Hd. destruct o as [[|c r]|]; by cbn. Qed.

(** C4, amended.  A rejected chat call appends exactly one message, of type
    [error] and never empty, and clears [loading]; its text is the detail of
    the response when the response carries a non-empty one, and otherwise a
    text of its own for each of 404, 400 and 503, the three being different
    from one another and from the general and the network texts. *)
Theorem sendMessage_rejected now err st :
  sendMessage_settle now (Rejected err) st =
    (set_loading false
       (set_messages
          (messages st ++
           [{| msg_type := error; content := errorMessage err;
               msg_sources := None; modelUsed := None; timestamp := now |}]) st),
     []) /\
  errorMessage err <> "" /\
  (forall r, response err = Some r -> truthy_opt (detail r) = true ->
     detail r = Some (errorMessage err)) /\
  (forall r, response err = Some r -> truthy_opt (detail r) = false ->
     (status r = 404 -> errorMessage err = notFoundError) /\
     (status r = 400 -> errorMessage err = badRequestError) /\
     (status r = 503 -> errorMessage err = unavailableError)) /\
  NoDup [notFoundError; badRequestError; unavailableError; defaultError; networkError].
Proof.
  split_and!.
  - apply sendMessage_settle_eq.
  - assert (truthy (errorMessage err) = true) as Ht; [|by destruct (errorMessage err)].
    unfold errorMessage. repeat case_match; by try apply or_else_truthy.
  - intros r Hr Hd. unfold errorMessage. rewrite Hr. cbv zeta.
    destruct (detail r) as [[|c d]|]; [done| |done].
    by repeat case_match.
  - intros r Hr Hd. unfold errorMessage. rewrite Hr. cbv zeta.
    assert (forall d, or_else (detail r) d = d) as Hor.
    { intros d. by destruct (detail r) as [[|c' d']|]. }
    rewrite !Hor. split_and!; by intros ->.
  - apply (bool_decide_unpack _). by vm_compute.
Qed.

Lemma sendMessage_rejected_witness :
  errorMessage (fault 503 None) = unavailableError /\
  errorMessage (fault 404 (Some "")) = notFoundError /\
  errorMessage (fault 400 None) = badRequestError.
Proof.
  split_and!.
  - destruct (sendMessage_rejected 0 (fault 503 None) (data None))
      as (_ & _ & _ & Hdefault & _).
    by apply (Hdefault {| status := 503; detail := None |}).
  - destruct (sendMessage_rejected 0 (fault 404 (Some "")) (data None))
      as (_ & _ & _ & Hdefault & _).
    by apply (Hdefault {| status := 404; detail := Some "" |}).
  - destruct (sendMessage_rejected 0 (fault 400 None) (data None))
      as (_ & _ & _ & Hdefault & _).
    by apply (Hdefault {| status := 400; detail := None |}).
Defined.

(** *** Sources *)

Lemma step_messages_prefix s s' :
  step s s' -> messages (comp s) `prefix_of` messages (comp s').
Proof.
  destruct 1 as [text s|now s|now o st rs1 r rs2].
  - by rewrite (run_frame _ s messages).
  - unfold run. rewrite sendMessage_start_eq.
    destruct (_ || _); cbn; [done|]. by apply prefix_app_r.
  - unfold run. rewrite sendMessage_settle_eq. cbn. by apply prefix_app_r.
Qed.

(** C6.  A successful chat call appends one assistant message whose sources
    are the sources of the response, the same entries in the same order (none
    when the field is absent); the template shows one line per stored source,
    in that order, with its file name and its relevance score as a
    percentage; and no later step of the component changes or removes a
    message that is already in the list. *)
Theorem sendMessage_keeps_sources (toFixed : Q -> nat -> string) now data st :
  sendMessage_settle now (Resolved data) st =
    (set_loading false
       (set_messages (messages st ++ [assistantMessage now data]) st), []) /\
  msg_type (assistantMessage now data) = assistant /\
  msg_sources (assistantMessage now data) = Some (default [] (sources data)) /\
  renderSources toFixed (assistantMessage now data) =
    (fun source =>
       (filename source,
        "Relevancia: " +:+ toFixed (relevance_score source * 100)%Q 1%nat +:+ "%"))
    <$> default [] (sources data) /\
  (forall s s', step s s' -> messages (comp s) `prefix_of` messages (comp s')).
Proof.
  split_and!; [apply sendMessage_settle_eq|done|done| |apply step_messages_prefix].
  unfold renderSources. cbn [msg_sources assistantMessage].
  by destruct (default [] (sources data)).
Qed.

(** A response with two sources, most relevant first. *)
Definition two_sources : ChatResponse :=
  {| answer := Some "El contrato vence en 2025.";
     sources :=
       Some [{| chunk_id := "c-7"; src_file_id := "id-1"; filename := "contrato.pdf";
                text_preview := "El presente contrato"; relevance_score := 9 # 10;
                chunk_index := 7 |};
             {| chunk_id := "c-2"; src_file_id := "id-2"; filename := "poder.pdf";
                text_preview := "Por el presente poder"; relevance_score := 1 # 2;
                chunk_index := 2 |}];
     model_used := Some "mistral:7b-instruct" |}.

Lemma sendMessage_keeps_sources_witness :
  filename <$> default [] (msg_sources (assistantMessage 2 two_sources)) =
    ["contrato.pdf"; "poder.pdf"] /\
  messages (comp asking) `prefix_of` messages (comp (run (sendMessage_start 1) asking)).
Proof.
  destruct (sendMessage_keeps_sources (fun _ _ => "") 2 two_sources (comp asking))
    as (_ & _ & Hsources & _ & Hprefix).
  split.
  - by rewrite Hsources.
  - apply Hprefix, step_send.
Defined.

(** *** Requests in flight *)

(** A request is in flight exactly while [loading] is set, and then there is
    one. *)
Definition chat_in_flight s : Prop :=
  length (requests s) = if loading (comp s) then 1 else 0.

Lemma step_chat_in_flight s s' :
  step s s' -> chat_in_flight s -> chat_in_flight s'.
Proof.
  unfold chat_in_flight. destruct 1 as [text s|now s|now o st rs1 r rs2]; intros Hinv.
  - unfold run. cbn. by rewrite app_nil_r.
  - unfold run. rewrite sendMessage_start_eq.
    destruct (loading (comp s)) eqn:Hl.
    + rewrite orb_true_r. cbn. by rewrite app_nil_r, Hl.
    + rewrite orb_false_r. destruct (negb _); cbn.
      * by rewrite app_nil_r, Hl.
      * rewrite length_app, Hinv. done.
  - unfold run. rewrite sendMessage_settle_eq. cbn in *.
    rewrite app_nil_r. rewrite length_app in *. cbn in Hinv.
    destruct (loading st); lia.
Qed.

Lemma reachable_chat_in_flight s : reachable s -> chat_in_flight s.
Proof.
  intros (env & now & Hs). revert s Hs. apply rtc_ind_r; [done|].
  intros s s' _ Hstep IH. by eapply step_chat_in_flight.
Qed.

(** [loading] falls only in a step that takes a request out of flight. *)
Lemma step_loading_falls s s' :
  step s s' -> loading (comp s) = true -> loading (comp s') = false ->
  length (requests s') < length (requests s).
Proof.
  destruct 1 as [text s|now s|now o st rs1 r rs2]; intros Hup Hdown.
  - rewrite (run_frame _ s loading) in Hdown by done. congruence.
  - unfold run in Hdown. rewrite sendMessage_start_eq, Hup, orb_true_r in Hdown.
    cbn in Hdown. congruence.
  - unfold run. rewrite sendMessage_settle_eq. cbn.
    rewrite app_nil_r, !length_app. cbn. lia.
Qed.

End chat_facts.

(** ** One request in flight per component *)
Section in_flight.

(** C9.  While [uploading] is set a call of [uploadFiles] does nothing, and
    while [loading] is set a call of [sendMessage] does nothing; a call that
    starts a request found the flag clear and leaves it set; the flag falls
    only in the step that handles the response or the error of the request;
    so in every state a component reaches it has at most one request in
    flight, and one exactly while its flag is set. *)
Theorem one_request_in_flight :
  (forall st, DocumentProcessor.uploading st = true ->
     DocumentProcessor.uploadFiles_start st = (st, [])) /\
  (forall now st, Chat.loading st = true ->
     Chat.sendMessage_start now st = (st, [])) /\
  (forall st r,
     DocumentProcessor.Post r ∈ (DocumentProcessor.uploadFiles_start st).2 ->
     DocumentProcessor.uploading st = false /\
     DocumentProcessor.uploading (DocumentProcessor.uploadFiles_start st).1 = true) /\
  (forall now st r,
     Chat.Post r ∈ (Chat.sendMessage_start now st).2 ->
     Chat.loading st = false /\
     Chat.loading (Chat.sendMessage_start now st).1 = true) /\
  (forall s s',
     DocumentProcessor.step s s' ->
     DocumentProcessor.uploading (DocumentProcessor.comp s) = true ->
     DocumentProcessor.uploading (DocumentProcessor.comp s') = false ->
     length (DocumentProcessor.requests s') < length (DocumentProcessor.requests s)) /\
  (forall s s',
     Chat.step s s' ->
     Chat.loading (Chat.comp s) = true ->
     Chat.loading (Chat.comp s') = false ->
     length (Chat.requests s') < length (Chat.requests s)) /\
  (forall s, DocumentProcessor.reachable s ->
     length (DocumentProcessor.requests s) =
     if DocumentProcessor.uploading (DocumentProcessor.comp s) then 1 else 0) /\
  (forall s, Chat.reachable s ->
     length (Chat.requests s) = if Chat.loading (Chat.comp s) then 1 else 0).
Proof.
  split_and!.
  - intros st Hup. by rewrite uploadFiles_start_eq, Hup, orb_true_r.
  - intros now st Hl. by rewrite sendMessage_start_eq, Hl, orb_true_r.
  - intros st r. rewrite uploadFiles_start_eq.
    destruct (_ || _) eqn:Hc; cbn [fst snd]; [by intros ?%elem_of_nil|].
    intros _. by apply orb_false_elim in Hc as [_ ->].
  - intros now st r. rewrite sendMessage_start_eq.
    destruct (_ || _) eqn:Hc; cbn [fst snd]; [by intros ?%elem_of_nil|].
    intros _. by apply orb_false_elim in Hc as [_ ->].
  - apply step_uploading_falls.
  - apply step_loading_falls.
  - apply reachable_upload_in_flight.
  - apply reachable_chat_in_flight.
Qed.

Lemma two_uploading_reachable : DocumentProcessor.reachable two_uploading.
Proof.
  exists None. eapply rtc_l; [apply DocumentProcessor.step_select|].
  apply rtc_once, DocumentProcessor.step_upload.
Qed.

Lemma one_request_in_flight_witness :
  length (DocumentProcessor.requests two_uploading) = 1 /\
  DocumentProcessor.uploadFiles_start (DocumentProcessor.comp two_uploading) =
    (DocumentProcessor.comp two_uploading, []).
Proof.
  destruct one_request_in_flight as (Hnoop & _ & _ & _ & _ & _ & Hone & _).
  split.
  - exact (Hone two_uploading two_uploading_reachable).
  - apply Hnoop. reflexivity.
Defined.

End in_flight.

(** ** App: the current view *)
Section app_facts.
Import App.

Lemma reachable_currentView st :
  reachable st -> currentView st = "chat" \/ currentView st = "documents".
Proof.
  intros Hs. revert st Hs. apply rtc_ind_r; [by left|].
  intros st st' _ [[] ?] _; [by left|by right].
Qed.

(** C10.  [currentView] is [chat] at the start; the side bar emits
    [change-view] with [chat] or [documents] only, and [changeView] stores
    what it is given; so in every state the application reaches
    [currentView] is one of the two, and exactly one of the Chat and
    DocumentProcessor views is rendered. *)
Theorem currentView_invariant :
  currentView data = "chat" /\
  (forall item, emitted item = "chat" \/ emitted item = "documents") /\
  (forall view st, currentView (changeView view st) = view) /\
  (forall st, reachable st ->
     (currentView st = "chat" \/ currentView st = "documents") /\
     (rendered st = [ChatView] \/ rendered st = [DocumentProcessorView]) /\
     length (rendered st) = 1).
Proof.
  split_and!; [done|by intros []; [left|right]|done|].
  intros st [Hv|Hv]%reachable_currentView; unfold rendered; rewrite Hv; cbn; tauto.
Qed.

Lemma currentView_invariant_witness :
  length (rendered (changeView (emitted navDocuments) data)) = 1.
Proof.
  destruct currentView_invariant as (_ & _ & _ & Hreach).
  apply Hreach. apply rtc_once, step_click.
Defined.

End app_facts.

(** ** DocumentProcessor: more on the pending list *)
Section pending_list_facts.
Import Js DocumentProcessor.
Local Abbreviation H := (Handler Data Effect).
Implicit Types (st : Data) (file f : File) (files : list File).

Lemma merge_prefix l vs : l `prefix_of` merge l vs.
Proof. destruct (merge_app l vs) as (added & -> & _). by apply prefix_app_r. Qed.

Lemma merge_keeps_key l vs k : k ∈ key <$> l -> k ∈ key <$> merge l vs.
Proof.
  intros Hk. destruct (merge_prefix l vs) as [added ->].
  rewrite fmap_app. apply elem_of_app. by left.
Qed.

Lemma merge_covers l vs v : v ∈ vs -> key v ∈ key <$> merge l vs.
Proof.
  revert l. induction vs as [|w r IH]; intros l; [by intros ?%elem_of_nil|].
  cbn [merge]. intros [->|Hv]%elem_of_cons; [|by apply IH].
  apply merge_keeps_key.
  destruct (existsb (sameFile w) l) eqn:Hex; [by apply existsb_sameFile|].
  rewrite fmap_app. apply elem_of_app. right. by left.
Qed.

Lemma merge_absorbs l vs : (forall v, v ∈ vs -> key v ∈ key <$> l) -> merge l vs = l.
Proof.
  induction vs as [|w r IH]; intros Hall; [done|]. cbn [merge].
  assert (Hw : existsb (sameFile w) l = true).
  { apply existsb_sameFile, Hall. by left. }
  rewrite Hw. apply IH. intros v Hv. apply Hall. by right.
Qed.

Lemma addFiles_frame files st :
  isDragging (addFiles files st).1 = isDragging st /\
  processedDocuments (addFiles files st).1 = processedDocuments st /\
  apiUrl (addFiles files st).1 = apiUrl st.
Proof.
  rewrite addFiles_eq. cbv zeta. destruct (_ && _); [done|].
  by destruct (0 <? length _)%nat, (length _ <? length files)%nat.
Qed.

(** X1.  [addFiles] keeps the entries of the pending list in place and in
    order, in front of what it appends; afterwards every valid file of the
    argument has an entry with its name and size in the list; and the call
    starts no request, arms no timer and leaves [uploading], [isDragging],
    [processedDocuments] and [apiUrl] as they were. *)
Theorem addFiles_keeps_and_covers files st :
  uploadedFiles st `prefix_of` uploadedFiles (addFiles files st).1 /\
  (forall file, file ∈ files -> isValidFile file = true ->
     key file ∈ key <$> uploadedFiles (addFiles files st).1) /\
  (addFiles files st).2 = [] /\
  uploading (addFiles files st).1 = uploading st /\
  isDragging (addFiles files st).1 = isDragging st /\
  processedDocuments (addFiles files st).1 = processedDocuments st /\
  apiUrl (addFiles files st).1 = apiUrl st.
Proof.
  rewrite addFiles_uploadedFiles.
  split_and!; [apply merge_prefix| |apply addFiles_effects|apply addFiles_uploading
              |apply addFiles_frame..].
  intros file Hin Hvalid. apply merge_covers, list_elem_of_In, filter_In.
  split; [by apply list_elem_of_In|done].
Qed.

Lemma addFiles_keeps_and_covers_witness :
  key contrato ∈ key <$> uploadedFiles (addFiles [setup_exe; contrato] (data None)).1.
Proof.
  destruct (addFiles_keeps_and_covers [setup_exe; contrato] (data None))
    as (_ & Hcover & _).
  apply Hcover; [|reflexivity]. apply list_elem_of_In. right. by left.
Defined.

(** X2.  Files whose name and size are all in the pending list already leave
    the list as it is; so passing the same files to [addFiles] a second time
    adds nothing. *)
Theorem addFiles_again files st :
  ((forall file, file ∈ files -> key file ∈ key <$> uploadedFiles st) ->
   uploadedFiles (addFiles files st).1 = uploadedFiles st) /\
  uploadedFiles (addFiles files (addFiles files st).1).1 =
    uploadedFiles (addFiles files st).1.
Proof.
  split.
  - intros Hall. rewrite addFiles_uploadedFiles. apply merge_absorbs.
    intros v [Hv _]%list_elem_of_In%filter_In. by apply Hall, list_elem_of_In.
  - rewrite !addFiles_uploadedFiles. apply merge_absorbs.
    intros v Hv. by apply merge_covers.
Qed.

Lemma addFiles_again_witness :
  uploadedFiles (addFiles [contrato] (addFiles [contrato; poder] (data None)).1).1 =
  [contrato; poder].
Proof.
  destruct (addFiles_again [contrato] (addFiles [contrato; poder] (data None)).1)
    as [Hsame _].
  rewrite Hsame; [reflexivity|].
  intros file ->%list_elem_of_singleton. apply list_elem_of_In. by left.
Defined.

Lemma addFiles_status_cons files st v vs :
  List.filter isValidFile files = v :: vs ->
  uploadStatus (addFiles files st).1 =
  Some {| status_type := info;
          message := pretty (S (length vs)) +:+ " archivo(s) agregado(s)" |}.
Proof.
  intros Hf. rewrite addFiles_eq. cbv zeta. rewrite Hf.
  cbn [length Nat.eqb andb].
  change (0 <? S (length vs))%nat with true.
  by destruct (S (length vs) <? length files)%nat.
Qed.

(** X3.  When the argument of [addFiles] holds a valid file, the status left
    behind is the notice that counts the valid files of the argument as
    added, whether they were appended or skipped as duplicates; the notice
    about rejected files, set before it, does not stay. *)
Theorem addFiles_added_notice files st :
  List.filter isValidFile files <> [] ->
  uploadStatus (addFiles files st).1 =
  Some {| status_type := info;
          message := pretty (length (List.filter isValidFile files)) +:+
                     " archivo(s) agregado(s)" |}.
Proof.
  intros Hvalid.
  destruct (List.filter isValidFile files) as [|v vs] eqn:Hf; [done|].
  by rewrite (addFiles_status_cons files st v vs Hf).
Qed.

Lemma addFiles_added_notice_witness :
  uploadStatus
    (addFiles [contrato; setup_exe] (addFiles [contrato] (data None)).1).1 =
  Some {| status_type := info; message := "1 archivo(s) agregado(s)" |}.
Proof.
  apply (addFiles_added_notice [contrato; setup_exe]
           (addFiles [contrato] (data None)).1).
  discriminate.
Defined.

Lemma isDroppedPdf_isValidFile file :
  isDroppedPdf file = true -> isValidFile file = true.
Proof.
  unfold isDroppedPdf. intros [Ht|He]%orb_true_iff; apply extension_is_pdf.
  - left. by apply String.eqb_eq.
  - by right; right.
Qed.

Lemma filter_filter_implied {A} (p q : A -> bool) (l : list A) :
  (forall x, p x = true -> q x = true) ->
  List.filter q (List.filter p l) = List.filter p l.
Proof.
  intros Hpq. induction l as [|x l IH]; [done|]. cbn [List.filter].
  destruct (p x) eqn:Hp; [|done]. cbn [List.filter]. by rewrite (Hpq x Hp), IH.
Qed.

(** X4.  Every file that passes the filter of [handleDrop] passes the filter
    of [addFiles]; so a drop never shows the error status or the notice
    about rejected files: it resets [isDragging], and the status is the
    notice counting the dropped PDFs, or the status as it was when no PDF
    was dropped. *)
Theorem handleDrop_status files st :
  (forall file, isDroppedPdf file = true -> isValidFile file = true) /\
  isDragging (handleDrop files st).1 = false /\
  uploadStatus (handleDrop files st).1 =
    match List.filter isDroppedPdf files with
    | [] => uploadStatus st
    | pdfs => Some {| status_type := info;
                      message := pretty (length pdfs) +:+ " archivo(s) agregado(s)" |}
    end.
Proof.
  split; [apply isDroppedPdf_isValidFile|].
  unfold handleDrop. rewrite seq_fst. cbn [assign fst].
  split.
  - destruct (addFiles_frame (List.filter isDroppedPdf files)
                (set_isDragging false st)) as [-> _]. done.
  - destruct (List.filter isDroppedPdf files) as [|v vs] eqn:Hf.
    + by rewrite addFiles_nil.
    + apply (addFiles_status_cons _ _ v vs).
      by rewrite <-Hf, (filter_filter_implied _ _ _ isDroppedPdf_isValidFile).
Qed.

(** X5.  [removeFile] with an index inside the list takes out that entry and
    keeps the others in order; with an index past the end it leaves the list
    as it is; the status is cleared exactly when the list is empty
    afterwards; nothing else changes and nothing is emitted. *)
Theorem removeFile_entry index st :
  (index < length (uploadedFiles st) ->
   uploadedFiles (removeFile index st).1 =
     take index (uploadedFiles st) ++ drop (S index) (uploadedFiles st) /\
   S (length (uploadedFiles (removeFile index st).1)) = length (uploadedFiles st)) /\
  (length (uploadedFiles st) <= index ->
   uploadedFiles (removeFile index st).1 = uploadedFiles st) /\
  uploadStatus (removeFile index st).1 =
    (if (length (uploadedFiles (removeFile index st).1) =? 0)%nat
     then None else uploadStatus st) /\
  (removeFile index st).2 = [] /\
  uploading (removeFile index st).1 = uploading st /\
  processedDocuments (removeFile index st).1 = processedDocuments st.
Proof.
  rewrite !removeFile_uploadedFiles. split_and!.
  - intros Hlt. split; [apply delete_take_drop|].
    rewrite length_delete by (by apply lookup_lt_is_Some). lia.
  - intros Hge. rewrite delete_take_drop, take_ge, drop_ge by lia.
    apply app_nil_r.
  - unfold removeFile. rewrite seq_fst. cbn.
    by destruct (length (delete index (uploadedFiles st)) =? 0)%nat.
  - unfold removeFile. rewrite seq_snd. cbn.
    by destruct (length (delete index (uploadedFiles st)) =? 0)%nat.
  - apply quiet_removeFile.
  - unfold removeFile. rewrite seq_fst. cbn.
    by destruct (length (delete index (uploadedFiles st)) =? 0)%nat.
Qed.

End pending_list_facts.

(** ** DocumentProcessor: the outcome of an upload *)
Section upload_outcome_facts.
Import Js DocumentProcessor DocumentProcessorUI.
Local Abbreviation H := (Handler Data Effect).
Implicit Types (st : Data) (s : System) (file f : File) (files : list File).

(** X6.  With exactly one pending file when the response arrives, a response
    object with [success] set appends its document to [processedDocuments],
    empties the pending list, leaves no status (the success status is set
    and cleared in the same handler), clears [uploading] and arms the
    5 second timer; a response object without [success] changes only the
    status, to the error text, and [uploading]. *)
Theorem uploadFiles_settle_single now r st file :
  uploadedFiles st = [file] ->
  uploadFiles_settle now (Resolved (Obj r)) st =
  if r_success r then
    ({| uploadedFiles := []; isDragging := isDragging st; uploading := false;
        uploadStatus := None;
        processedDocuments := processedDocuments st ++ [docOf now r];
        apiUrl := apiUrl st |}, [SetTimeout 5000])
  else
    ({| uploadedFiles := [file]; isDragging := isDragging st; uploading := false;
        uploadStatus :=
          Some {| status_type := error;
                  message := "No se pudo subir ningún documento. Verifica los archivos e intenta de nuevo." |};
        processedDocuments := processedDocuments st;
        apiUrl := apiUrl st |}, []).
Proof.
  destruct st as [ufs drag upl status docs url]. cbn [uploadedFiles]. intros ->.
  unfold uploadFiles_settle, onResolved, tallySingle, tallyOne.
  by destruct (r_success r).
Qed.

Lemma uploadFiles_settle_single_witness :
  processedDocuments
    (uploadFiles_settle 0 (Resolved (Obj (accepted contrato "id-1")))
       (addFiles [contrato] (data None)).1).1 =
  [{| doc_name := "contrato.pdf"; fileId := Some "id-1";
      processedAt := ServerTime "2024-01-15T10:30:00.000000" |}].
Proof.
  by rewrite (uploadFiles_settle_single 0 (accepted contrato "id-1")
                (addFiles [contrato] (data None)).1 contrato eq_refl).
Defined.

Lemma failed_none_forallb rs :
  (length (List.filter (fun r => negb (r_success r)) rs) =? 0)%nat =
  forallb r_success rs.
Proof. induction rs as [|r rs IH]; [done|]. cbn. by destruct (r_success r). Qed.

(** X7.  With a pending list that does not hold exactly one file when the
    response arrives, a response array is handled entry by entry: the
    documents of the entries with [success] are appended in order; when no
    entry failed the pending list is emptied and no status is left, and the
    timer is armed if there was a success; when an entry failed the pending
    list is kept and the status counts successes and failures, or is the
    error text when nothing succeeded.  [uploading] is cleared in all
    cases. *)
Theorem uploadFiles_settle_array now rs st :
  length (uploadedFiles st) <> 1 ->
  uploadFiles_settle now (Resolved (Arr rs)) st =
  let ok := length (List.filter r_success rs) in
  let ko := length (List.filter (fun r => negb (r_success r)) rs) in
  let docs := processedDocuments st ++ (docOf now <$> List.filter r_success rs) in
  if (ko =? 0)%nat then
    ({| uploadedFiles := []; isDragging := isDragging st; uploading := false;
        uploadStatus := None; processedDocuments := docs; apiUrl := apiUrl st |},
     if (0 <? ok)%nat then [SetTimeout 5000] else [])
  else
    ({| uploadedFiles := uploadedFiles st; isDragging := isDragging st;
        uploading := false;
        uploadStatus :=
          Some (if (0 <? ok)%nat then
                  {| status_type := info;
                     message := pretty ok +:+ " documento(s) subido(s), " +:+
                                pretty ko +:+ " fallido(s)" |}
                else
                  {| status_type := error;
                     message := "No se pudo subir ningún documento. Verifica los archivos e intenta de nuevo." |});
        processedDocuments := docs; apiUrl := apiUrl st |}, []).
Proof.
  intros Hlen%Nat.eqb_neq. cbv zeta.
  unfold uploadFiles_settle, onResolved. unfold seq at 1. rewrite Hlen.
  unfold tallyMultiple. rewrite tallyMultiple_fold.
  cbn [uploadedDocs successCount failedCount tally0 app Nat.add].
  rewrite length_fmap.
  set (ok := List.filter r_success rs).
  set (ko := List.filter (fun r => negb (r_success r)) rs).
  destruct st as [ufs drag upl status docs url]. cbn [uploadedFiles] in Hlen.
  destruct ok as [|o ok]; destruct ko as [|k ko]; cbn; by rewrite ?app_nil_r.
Qed.

Lemma uploadFiles_settle_array_witness :
  uploadedFiles
    (uploadFiles_settle 0
       (Resolved (Arr [accepted contrato "id-1"; accepted poder "id-2"]))
       (addFiles [contrato; poder] (data None)).1).1 = [].
Proof.
  by rewrite (uploadFiles_settle_array 0
                [accepted contrato "id-1"; accepted poder "id-2"]
                (addFiles [contrato; poder] (data None)).1).
Defined.

(** X8.  A rejected upload keeps the pending list and the processed
    documents, clears [uploading], arms no timer and shows an error status:
    the fixed text about the endpoint for 404 and the fixed text about the
    size for 413, whatever the response says, and otherwise the detail of
    the response when it has a non-empty one. *)
Theorem uploadFiles_settle_rejected now response st :
  exists msg,
    uploadFiles_settle now (Rejected response) st =
      (set_uploading false
         (set_uploadStatus (Some {| status_type := error; message := msg |}) st), []) /\
    msg <> "" /\
    (status <$> response = Some 404 ->
     msg = "El endpoint de carga de documentos aún no está disponible. Asegúrate de que el backend esté ejecutándose.") /\
    (status <$> response = Some 413 ->
     msg = "Archivo demasiado grande. El tamaño máximo permitido es 50MB por archivo.") /\
    (forall d, status <$> response <> Some 404 -> status <$> response <> Some 413 ->
       response ≫= detail = Some d -> truthy d = true -> msg = d).
Proof.
  unfold uploadFiles_settle, onRejected. cbv zeta.
  destruct (bool_decide (status <$> response = Some 400)) eqn:H400;
    [|destruct (bool_decide (status <$> response = Some 404)) eqn:H404;
      [|destruct (bool_decide (status <$> response = Some 413)) eqn:H413]];
    eexists; (split; [reflexivity|]);
    repeat match goal with
           | H : bool_decide _ = true |- _ => apply bool_decide_eq_true in H
           | H : bool_decide _ = false |- _ => apply bool_decide_eq_false in H
           end.
  - split_and!; [|congruence|congruence|].
    + by destruct (response ≫= detail) as [[|c d]|].
    + intros d _ _ -> Hd. by destruct d.
  - split_and!; [done|done|congruence|done].
  - split_and!; [done|congruence|done|done].
  - split_and!; [|done|done|].
    + by destruct (response ≫= detail) as [[|c d]|].
    + intros d _ _ -> Hd. by destruct d.
Qed.

(** X9.  The upload button is disabled exactly in the states in which
    [uploadFiles] does nothing; in a state in which it is enabled a click
    starts exactly one request, which carries one form entry per pending
    file, at least one. *)
Theorem uploadDisabled_noop st :
  (uploadDisabled st = true <-> uploadFiles_start st = (st, [])) /\
  (uploadDisabled st = false ->
   exists r, (uploadFiles_start st).2 = [Post r] /\
             length (formData r) = length (uploadedFiles st) /\
             0 < length (formData r)).
Proof.
  unfold uploadDisabled. rewrite uploadFiles_start_eq. rewrite (orb_comm (uploading st)).
  destruct (_ || _) eqn:Hc; split; try done.
  - intros _. eexists. split; [reflexivity|]. cbn [formData].
    rewrite length_fmap. split; [done|].
    apply orb_false_elim in Hc as [Hlen%Nat.eqb_neq _]. lia.
Qed.

End upload_outcome_facts.

(** ** DocumentProcessor: what every step keeps *)
Section document_processor_invariants.
Import Js DocumentProcessor.
Local Abbreviation H := (Handler Data Effect).
Implicit Types (st : Data) (s : System) (h k : H).

(** The pending list after [h] is the list before, or what is left of it
    after taking entries out, or that with new entries merged in. *)
Definition keeps_unique h : Prop :=
  forall st, NoDup (key <$> uploadedFiles st) ->
             NoDup (key <$> uploadedFiles (h st).1).

(** [processedDocuments] after [h] starts with the list before. *)
Definition extends_processed h : Prop :=
  forall st, processedDocuments st `prefix_of` processedDocuments (h st).1.

Lemma keeps_unique_seq h k : keeps_unique h -> keeps_unique k -> keeps_unique (h >>> k).
Proof. intros Hh Hk st Hnd. rewrite seq_fst. by apply Hk, Hh. Qed.

Lemma extends_processed_seq h k :
  extends_processed h -> extends_processed k -> extends_processed (h >>> k).
Proof. intros Hh Hk st. rewrite seq_fst. etrans; [apply Hh|apply Hk]. Qed.

Lemma keeps_unique_when c h : keeps_unique h -> keeps_unique (when c h).
Proof. destruct c; [done|]. by intros _ st. Qed.

Lemma extends_processed_when c h : extends_processed h -> extends_processed (when c h).
Proof. destruct c; [done|]. by intros _ st. Qed.

Lemma keeps_unique_same h :
  (forall st, uploadedFiles (h st).1 = uploadedFiles st) -> keeps_unique h.
Proof. intros Hh st Hnd. by rewrite Hh. Qed.

Lemma extends_processed_same h :
  (forall st, processedDocuments (h st).1 = processedDocuments st) ->
  extends_processed h.
Proof. intros Hh st. by rewrite Hh. Qed.

Lemma showStatus_same ty msg st :
  uploadedFiles (showStatus ty msg st).1 = uploadedFiles st /\
  processedDocuments (showStatus ty msg st).1 = processedDocuments st.
Proof. by rewrite showStatus_eq. Qed.

Lemma keeps_unique_clearFiles : keeps_unique clearFiles.
Proof. intros st _. cbn. constructor. Qed.

Lemma keeps_unique_addFiles files : keeps_unique (addFiles files).
Proof. intros st Hnd. rewrite addFiles_uploadedFiles. by apply merge_NoDup. Qed.

Lemma keeps_unique_removeFile index : keeps_unique (removeFile index).
Proof. intros st Hnd. by apply (listOp_NoDup (RemoveFile index)). Qed.

Lemma keeps_unique_settle now o : keeps_unique (uploadFiles_settle now o).
Proof.
  unfold uploadFiles_settle. apply keeps_unique_seq; [|by apply keeps_unique_same].
  destruct o as [data|response].
  - intros st. unfold onResolved. cbv zeta.
    repeat apply keeps_unique_seq.
    + by apply keeps_unique_when, keeps_unique_same.
    + repeat case_match; apply keeps_unique_same; intros; apply showStatus_same.
    + apply keeps_unique_when, keeps_unique_clearFiles.
  - unfold onRejected. cbv zeta.
    repeat case_match; apply keeps_unique_same; intros; apply showStatus_same.
Qed.

Lemma run_comp h s : comp (run h s) = (h (comp s)).1.
Proof. unfold run. by destruct (h (comp s)). Qed.

Lemma step_keeps_unique s s' :
  step s s' ->
  NoDup (key <$> uploadedFiles (comp s)) -> NoDup (key <$> uploadedFiles (comp s')).
Proof.
  destruct 1; rewrite run_comp; cbn [comp].
  - apply keeps_unique_addFiles.
  - apply keeps_unique_seq; [by apply keeps_unique_same|apply keeps_unique_addFiles].
  - done.
  - done.
  - apply keeps_unique_removeFile.
  - apply keeps_unique_clearFiles.
  - rewrite uploadFiles_start_eq. by destruct (_ || _).
  - apply keeps_unique_settle.
  - done.
Qed.

(** X10.  In every state the component reaches, whatever the user drops,
    selects, removes or uploads and whatever the server answers, no two
    entries of the pending list have the same name and the same size. *)
Theorem reachable_unique_keys s :
  reachable s -> NoDup (key <$> uploadedFiles (comp s)).
Proof.
  intros [env Hs]. revert s Hs. apply rtc_ind_r; [cbn; constructor|].
  intros s s' _ Hstep IH. by eapply step_keeps_unique.
Qed.

Lemma reachable_unique_keys_witness :
  NoDup (key <$> uploadedFiles (comp one_removed)).
Proof.
  apply reachable_unique_keys. exists None.
  eapply rtc_l; [apply step_select|].
  eapply rtc_l; [apply step_upload|].
  apply rtc_once, step_remove.
Defined.

Lemma extends_processed_settle now o : extends_processed (uploadFiles_settle now o).
Proof.
  unfold uploadFiles_settle.
  apply extends_processed_seq; [|by apply extends_processed_same].
  destruct o as [data|response].
  - intros st. unfold onResolved. cbv zeta.
    repeat apply extends_processed_seq.
    + apply extends_processed_when. intros st'. by apply prefix_app_r.
    + repeat case_match; apply extends_processed_same; intros; apply showStatus_same.
    + by apply extends_processed_when, extends_processed_same.
  - unfold onRejected. cbv zeta.
    repeat case_match; apply extends_processed_same; intros; apply showStatus_same.
Qed.

Lemma removeFile_processedDocuments index st :
  processedDocuments (removeFile index st).1 = processedDocuments st.
Proof.
  unfold removeFile. rewrite seq_fst. cbn.
  by destruct (length (delete index (uploadedFiles st)) =? 0)%nat.
Qed.

Lemma step_extends_processed s s' :
  step s s' -> processedDocuments (comp s) `prefix_of` processedDocuments (comp s').
Proof.
  destruct 1; rewrite run_comp; cbn [comp].
  - apply extends_processed_same. intros. apply addFiles_frame.
  - apply extends_processed_seq; [by apply extends_processed_same|].
    apply extends_processed_same. intros. apply addFiles_frame.
  - done.
  - done.
  - apply extends_processed_same. apply removeFile_processedDocuments.
  - done.
  - rewrite uploadFiles_start_eq. by destruct (_ || _).
  - apply extends_processed_settle.
  - done.
Qed.

(** X11.  No step of the component takes a document out of
    [processedDocuments] or changes one: along every run the list of an
    earlier state is the beginning of the list of a later state. *)
Theorem processedDocuments_only_grows s s' :
  rtc step s s' ->
  processedDocuments (comp s) `prefix_of` processedDocuments (comp s').
Proof.
  induction 1 as [s|s1 s2 s3 Hstep _ IH]; [done|].
  etrans; [by apply step_extends_processed|done].
Qed.

Lemma processedDocuments_only_grows_witness :
  processedDocuments (comp two_selected) `prefix_of`
  processedDocuments (comp one_removed).
Proof.
  apply processedDocuments_only_grows.
  eapply rtc_l; [apply step_upload|]. apply rtc_once, step_remove.
Defined.

End document_processor_invariants.

(** ** Chat: the conversation *)
Section conversation_facts.
Import Js Chat ChatUI.
Local Abbreviation H := (Handler Data Effect).
Implicit Types (st : Data) (s : System) (m u : Message).

(** X12.  The send button is disabled exactly in the states in which
    [sendMessage] does nothing; in a state in which it is enabled a call
    empties the text area, appends one user message with the trimmed text
    and the time of the call, sets [loading] and starts exactly one request,
    a JSON POST to [{apiUrl}/chat]. *)
Theorem sendDisabled_noop now st :
  (sendDisabled st = true <-> sendMessage_start now st = (st, [])) /\
  (sendDisabled st = false ->
   exists r,
     (sendMessage_start now st).2 = [Post r] /\
     url r = apiUrl st +:+ "/chat" /\
     contentType r = "application/json" /\
     currentMessage (sendMessage_start now st).1 = "" /\
     loading (sendMessage_start now st).1 = true /\
     messages (sendMessage_start now st).1 =
       messages st ++
       [{| msg_type := user; content := trim (currentMessage st);
           msg_sources := None; modelUsed := None; timestamp := now |}]).
Proof.
  unfold sendDisabled. rewrite sendMessage_start_eq. rewrite (orb_comm (loading st)).
  destruct (_ || _) eqn:Hc; split; try done.
  intros _. eexists. by split_and!.
Qed.

Lemma sendDisabled_noop_witness :
  messages (sendMessage_start 1 (comp asking)).1 =
  messages (comp asking) ++
  [{| msg_type := user; content := "hola";
      msg_sources := None; modelUsed := None; timestamp := 1 |}].
Proof.
  destruct (sendDisabled_noop 1 (comp asking)) as [_ Hsend].
  destruct (Hsend eq_refl) as (r & _ & _ & _ & _ & _ & Hmsgs).
  exact Hmsgs.
Defined.

(** The messages of completed exchanges: a user message and the reply to
    it, one exchange after the other. *)
Definition exchanges (ps : list (Message * Message)) : list Message :=
  concat ((fun p => [p.1; p.2]) <$> ps).

Definition is_reply m : Prop := msg_type m = assistant \/ msg_type m = error.

(** The list of messages is the welcome message, then complete exchanges,
    then the user message that waits for its reply exactly while [loading]
    is set. *)
Definition conversation st : Prop :=
  exists welcome ps pending,
    messages st = welcome :: exchanges ps ++ pending /\
    msg_type welcome = assistant /\
    Forall (fun p => msg_type p.1 = user /\ is_reply p.2) ps /\
    if loading st then exists u, pending = [u] /\ msg_type u = user
    else pending = [].

Lemma exchanges_snoc ps u m : exchanges (ps ++ [(u, m)]) = exchanges ps ++ [u; m].
Proof. unfold exchanges. by rewrite fmap_app, concat_app. Qed.

Lemma step_conversation s s' :
  step s s' ->
  chat_in_flight s /\ conversation (comp s) ->
  conversation (comp s').
Proof.
  destruct 1 as [text s|now s|now o st rs1 r rs2]; intros [Hfl Hconv].
  - unfold run. cbn. destruct Hconv as (w & ps & pending & Hm & Hw & Hps & Hl).
    by exists w, ps, pending.
  - unfold run. rewrite sendMessage_start_eq.
    destruct (_ || _) eqn:Hguard; cbn [comp fst]; [done|].
    apply orb_false_elim in Hguard as [_ Hload].
    destruct Hconv as (w & ps & pending & Hm & Hw & Hps & Hl).
    rewrite Hload in Hl. subst pending. rewrite app_nil_r in Hm.
    exists w, ps, [userMsg now (trim (currentMessage (comp s)))]. cbn.
    rewrite Hm. split_and!; [done|done|done|by eexists].
  - unfold chat_in_flight in Hfl. cbn in Hfl. rewrite length_app in Hfl. cbn in Hfl.
    destruct (loading st) eqn:Hload; [|lia].
    destruct Hconv as (w & ps & pending & Hm & Hw & Hps & Hl). cbn in Hm, Hl.
    rewrite Hload in Hl. destruct Hl as (u & -> & Hu).
    unfold run. rewrite sendMessage_settle_eq. cbn [comp fst].
    eexists w, (ps ++ [(u, _)]), [].
    cbn [messages loading set_loading set_messages].
    rewrite Hm, exchanges_snoc, app_nil_r.
    split_and!; [by rewrite <-app_comm_cons, <-app_assoc|done| |done].
    apply Forall_app. split; [done|]. constructor; [|constructor].
    split; [done|]. destruct o; [by left|by right].
Qed.

(** X13.  In every state the component reaches, the list of messages is the
    welcome message of the assistant followed by exchanges, each a user
    message and then one reply of type assistant or error; when [loading] is
    set the list ends with one more user message, the one in flight, and
    when it is clear the list ends with a reply or is the welcome message
    alone. *)
Theorem conversation_alternates s : reachable s -> conversation (comp s).
Proof.
  intros Hreach.
  enough (chat_in_flight s /\ conversation (comp s)) as [_ ?] by done.
  destruct Hreach as (env & now & Hs). revert s Hs. apply rtc_ind_r.
  - split; [done|]. eexists _, [], []. by split_and!.
  - intros s s' _ Hstep IH. split.
    + by eapply step_chat_in_flight; [|apply IH].
    + by eapply step_conversation.
Qed.

Lemma conversation_alternates_witness :
  conversation (comp (run (sendMessage_start 1) asking)).
Proof.
  apply conversation_alternates. exists None, 0%N.
  eapply rtc_l; [apply step_input|]. apply rtc_once, step_send.
Defined.






End conversation_facts.

(** ** Chat: the text area and the rendering of a message *)
Section message_text_facts.
Import Js Chat ChatUI.
Implicit Types (st : Data) (content s t : string).







Lemma is_space_ascii c : is_space c = true -> nat_of_ascii c < 128.
Proof.
  unfold is_space, byte_in, byte_is.
  rewrite orb_true_iff, andb_true_iff, !Nat.leb_le, Nat.eqb_eq. lia.
Qed.

Lemma is_space2_high a c : is_space2 a c = true -> 128 <= nat_of_ascii c.
Proof.
  unfold is_space2, byte_is. rewrite andb_true_iff, !Nat.eqb_eq. lia.
Qed.

Lemma is_space3_high a b c : is_space3 a b c = true -> 128 <= nat_of_ascii c.
Proof.
  unfold is_space3, byte_in, byte_is.
  rewrite !orb_true_iff, !andb_true_iff, !orb_true_iff, !andb_true_iff,
    !Nat.leb_le, !Nat.eqb_eq. lia.
Qed.

Lemma space_prefix_snoc s c :
  is_space c = true -> s <> "" -> space_prefix s = None ->
  space_prefix (s +:+ String c "") = None.
Proof.
  intros Hc%is_space_ascii Hs.
  destruct s as [|a [|b [|d t]]]; cbn [space_prefix]; try done.
  - change (String a "" +:+ String c "") with (String a (String c "")).
    cbn [space_prefix]. destruct (is_space a); [done|]. intros _.
    destruct (is_space2 a c) eqn:H2; [|done]. apply is_space2_high in H2. lia.
  - change (String a (String b "") +:+ String c "")
      with (String a (String b (String c ""))).
    cbn [space_prefix]. destruct (is_space a); [done|].
    destruct (is_space2 a b); [done|]. intros _.
    destruct (is_space3 a b c) eqn:H3; [|done]. apply is_space3_high in H3. lia.
  - change (String a (String b (String d t)) +:+ String c "")
      with (String a (String b (String d (t +:+ String c "")))).
    cbn [space_prefix].
    by destruct (is_space a), (is_space2 a b), (is_space3 a b d).
Qed.

Lemma trimStart_snoc_space s c :
  is_space c = true ->
  trimStart (s +:+ String c "") =
  if all_space s then "" else trimStart s +:+ String c "".
Proof.
  intros Hc. induction s as [s IH] using string_length_ind.
  destruct s as [|a t].
  - change ("" +:+ String c "") with (String c ""). cbn. by rewrite Hc.
  - rewrite (all_space_unfold (String a t)), (trimStart_unfold (String a t)).
    rewrite trimStart_unfold.
    destruct (space_prefix (String a t)) as [r|] eqn:Hp.
    + rewrite (space_prefix_app _ _ _ Hp). apply IH. by apply space_prefix_length.
    + by rewrite space_prefix_snoc.
Qed.

Lemma all_space_snoc_space s c :
  is_space c = true -> all_space (s +:+ String c "") = all_space s.
Proof.
  intros Hc. apply eq_true_iff_eq.
  rewrite !all_space_trimStart, trimStart_snoc_space by done.
  destruct (all_space s) eqn:Hs.
  - by rewrite <-all_space_trimStart.
  - rewrite <-all_space_trimStart, Hs. split; [|done].
    destruct (trimStart s); discriminate.
Qed.

Lemma trimEnd_snoc_space t c :
  is_space c = true -> trimEnd (t +:+ String c "") = trimEnd t.
Proof.
  intros Hc. induction t as [|a r IH].
  - change ("" +:+ String c "") with (String c ""). cbn. by rewrite Hc.
  - pose proof (all_space_snoc_space (String a r) c Hc) as Hall.
    change (String a r +:+ String c "") with (String a (r +:+ String c "")) in *.
    cbn [trimEnd]. by rewrite Hall, IH.
Qed.

Lemma trim_snoc_space s c :
  is_space c = true -> trim (s +:+ String c "") = trim s.
Proof.
  intros Hc. unfold trim. rewrite trimStart_snoc_space by done.
  destruct (all_space s) eqn:Hs.
  - apply trim_all_space in Hs. unfold trim in Hs. by rewrite Hs.
  - by apply trimEnd_snoc_space.
Qed.

(** X16.  Shift+Enter appends a line break to the text area and sends
    nothing; the line break at the end does not reach the question: the
    text that [sendMessage] would send and the state of the send button are
    the same as before the key press. *)
Theorem shiftEnter_keeps_question st :
  shiftEnter st =
    (set_currentMessage (currentMessage st +:+ String "010" "") st, []) /\
  trim (currentMessage (shiftEnter st).1) = trim (currentMessage st) /\
  sendDisabled (shiftEnter st).1 = sendDisabled st /\
  forall now userMessage,
    makeRequestBody userMessage (shiftEnter st).1 = makeRequestBody userMessage st /\
    ((sendMessage_start now (shiftEnter st).1).2 = [] <->
     (sendMessage_start now st).2 = []).
Proof.
  assert (Htrim : trim (currentMessage (shiftEnter st).1) = trim (currentMessage st)).
  { cbn. by apply trim_snoc_space. }
  split_and!; [done|done| |].
  - unfold sendDisabled. by rewrite Htrim.
  - intros now userMessage. split; [done|].
    rewrite !sendMessage_start_eq, Htrim. cbn [loading shiftEnter assign fst set_currentMessage].
    by destruct (_ || _).
Qed.

End message_text_facts.

(** ** Sidebar: the active button *)
Section sidebar_facts.
Import App SidebarUI.

(** X17.  In every state the application reaches exactly one button of the
    side bar has the class [active], and the view that is rendered is the
    view of that button; a click on a button makes it the active one. *)
Theorem active_item_is_rendered st :
  reachable st ->
  (exists item,
     (forall other, active (currentView st) other = true <-> other = item) /\
     rendered st = [viewOf item]) /\
  (forall item other,
     active (currentView (changeView (emitted item) st)) other = true <->
     other = item).
Proof.
  intros Hreach. split.
  - destruct (reachable_currentView st Hreach) as [Hv|Hv];
      [exists navChat|exists navDocuments];
      (split; [intros []|]; unfold rendered; rewrite Hv; by cbn).
  - by intros [] [].
Qed.

Lemma active_item_is_rendered_witness :
  active (currentView (changeView (emitted navDocuments) data)) navDocuments = true.
Proof.
  destruct (active_item_is_rendered (changeView (emitted navChat) data)) as [_ Hclick].
  - apply rtc_once, step_click.
  - by apply Hclick.
Defined.

End sidebar_facts.

(** ** DocumentProcessor: the two PDF tests and the single-file branch *)
Section filter_facts.
Import Js DocumentProcessor.
Implicit Types (st : Data) (file : File).

(** X18.  A file passes the filter of [addFiles] exactly when its declared
    type is [application/pdf], or its lower-cased name ends in [.pdf], or its
    lower-cased name is the bare word [pdf]; the filter of [handleDrop]
    accepts the first two kinds only, so the files that [addFiles] accepts
    and [handleDrop] discards are those named [pdf], in any letter case,
    with another declared type. *)
Theorem isValidFile_iff file :
  (isValidFile file = true <->
   type file = "application/pdf" \/
   endsWith ".pdf" (toLowerCase (name file)) = true \/
   toLowerCase (name file) = "pdf") /\
  (isDroppedPdf file = true <->
   type file = "application/pdf" \/
   endsWith ".pdf" (toLowerCase (name file)) = true) /\
  (isValidFile file = true /\ isDroppedPdf file = false <->
   type file <> "application/pdf" /\ toLowerCase (name file) = "pdf").
Proof.
  assert (Hdrop : isDroppedPdf file = true <->
                  type file = "application/pdf" \/
                  endsWith ".pdf" (toLowerCase (name file)) = true).
  { unfold isDroppedPdf. by rewrite orb_true_iff, String.eqb_eq. }
  split_and!; [rewrite extension_is_pdf; tauto|done|].
  rewrite extension_is_pdf. split.
  - intros [Hvalid Hnot]. apply not_true_iff_false in Hnot.
    rewrite Hdrop in Hnot. tauto.
  - intros [Hty Hname]. split; [tauto|].
    apply not_true_iff_false. rewrite Hdrop. intros [?|Hends]; [done|].
    rewrite Hname in Hends. discriminate.
Qed.

(** X19.  With exactly one pending file when the response arrives, a
    response that is an array is not read entry by entry: whatever its
    entries say, nothing is appended to [processedDocuments], the pending
    list is kept, and the error status is shown. *)
Theorem uploadFiles_settle_single_array now rs st file :
  uploadedFiles st = [file] ->
  uploadFiles_settle now (Resolved (Arr rs)) st =
  ({| uploadedFiles := [file]; isDragging := isDragging st; uploading := false;
      uploadStatus :=
        Some {| status_type := error;
                message := "No se pudo subir ningún documento. Verifica los archivos e intenta de nuevo." |};
      processedDocuments := processedDocuments st;
      apiUrl := apiUrl st |}, []).
Proof.
  destruct st as [ufs drag upl status docs url]. cbn [uploadedFiles]. by intros ->.
Qed.

Lemma uploadFiles_settle_single_array_witness :
  processedDocuments
    (uploadFiles_settle 0 (Resolved (Arr [accepted contrato "id-1"]))
       (addFiles [contrato] (data None)).1).1 = [].
Proof.
  by rewrite (uploadFiles_settle_single_array 0 [accepted contrato "id-1"]
                (addFiles [contrato] (data None)).1 contrato eq_refl).
Defined.

End filter_facts.
